(** * Active-set monitoring core of the Monad validator monitor

    A shallow embedding of the parts of [monad_monitor] that decide whether a
    validator belongs to the active set and how that status moves over time:

    - [huginn.py]: the circuit breaker, the retrying fetch, the resolution of
      the network round, the parsing of an uptime record and the public
      helpers built on it;
    - [cross_validation.py]: the reconciliation of the two sources;
    - [state_machine.py]: the lifecycle state machine and its persistence;
    - [main.py]: the part of the monitoring loop that drives the state
      machine.

    Conventions of the embedding.

    - Values whose Python type is not fixed by the code (JSON payloads, the
      fields copied from them) are [Py.pyval]; an operation that can raise
      returns a [Py.result].
    - Python floats (clock readings, delays, percentages) are modelled by
      the rationals they approximate: rounding to binary64, infinities and
      NaN are outside the model. Where a float operation raises (an int
      beyond the float range) the model raises too.
    - The outside world is an explicit part of the state: [time.time()] reads
      the next value of a clock oracle, [requests.get] the next outcome of an
      HTTP oracle, and every outbound effect is appended to a trace.
    - Logging has no effect on the state and is left out. *)

From Stdlib Require Import ZArith QArith Qminmax Qround String Ascii List Bool Lia Lqa.
From stdpp Require Import base option gmap strings list pretty.

Local Open Scope Z_scope.

(* ===================================================================== *)
(** ** Python values and the operations the code applies to them         *)
(* ===================================================================== *)

Module Py.

Inductive exn :=
| AttributeError
| TypeError
| ValueError
| KeyError
| OverflowError
| ZeroDivisionError.

Inductive result (A : Type) :=
| Ok (a : A)
| Raise (e : exn).

Arguments Ok {A} a.
Arguments Raise {A} e.


#[local] Set Warnings "-register-all".

(** What [json.loads] can produce, which is also what the code stores in
    its records without looking at the type. A dict is the list of its
    items; the first binding of a key is the one a lookup sees. *)
Inductive pyval :=
| PNone
| PBool (b : bool)
| PInt (n : Z)
| PFloat (q : Q)
| PStr (s : string)
| PList (l : list pyval)
| PDict (items : list (string * pyval)).

(** [bool(v)], as used by [if v], [not v], [v or w], [v and w]. *)
Definition truthy (v : pyval) : bool :=
  match v with
  | PNone => false
  | PBool b => b
  | PInt n => negb (n =? 0)
  | PFloat q => negb (Qeq_bool q 0)
  | PStr s => negb (String.eqb s "")
  | PList l => match l with [] => false | _ :: _ => true end
  | PDict items => match items with [] => false | _ :: _ => true end
  end.

(** [v or w] *)
Definition or_ (v w : pyval) : pyval := if truthy v then v else w.

Definition is_none (v : pyval) : bool :=
  match v with PNone => true | _ => false end.

(** [isinstance(v, dict)] *)
Definition is_dict (v : pyval) : bool :=
  match v with PDict _ => true | _ => false end.

(** [isinstance(v, str)] *)
Definition is_str (v : pyval) : bool :=
  match v with PStr _ => true | _ => false end.

(** [isinstance(v, int)]: [bool] is a subclass of [int]. *)
Definition is_int (v : pyval) : bool :=
  match v with PInt _ | PBool _ => true | _ => false end.

Fixpoint lookup_item (key : string) (items : list (string * pyval)) : option pyval :=
  match items with
  | [] => None
  | (k, v) :: rest => if String.eqb k key then Some v else lookup_item key rest
  end.

(** [d.get(key, default)] on a dict. *)
Definition dict_get (items : list (string * pyval)) (key : string) (default : pyval) : pyval :=
  match lookup_item key items with
  | Some v => v
  | None => default
  end.

(** [v.get(key, default)]: only a dict has the method. *)
Definition get (v : pyval) (key : string) (default : pyval) : result pyval :=
  match v with
  | PDict items => Ok (dict_get items key default)
  | _ => Raise AttributeError
  end.

(** [key in d] on a dict. *)
Definition dict_contains (items : list (string * pyval)) (key : string) : bool :=
  match lookup_item key items with Some _ => true | None => false end.

(** Numbers: [int] (with [bool] as 0 and 1) and [float]. *)
Inductive number :=
| NInt (n : Z)
| NFloat (q : Q).

Definition as_number (v : pyval) : option number :=
  match v with
  | PBool b => Some (NInt (Z.b2z b))
  | PInt n => Some (NInt n)
  | PFloat q => Some (NFloat q)
  | _ => None
  end.

Definition of_number (x : number) : pyval :=
  match x with
  | NInt n => PInt n
  | NFloat q => PFloat q
  end.

Definition number_value (x : number) : Q :=
  match x with
  | NInt n => inject_Z n
  | NFloat q => q
  end.

(** An int converts to a float when it rounds to a finite binary64. *)
Definition FLOAT_INT_BOUND : Z := 2 ^ 1024 - 2 ^ 970.

Definition float_of_number (x : number) : result Q :=
  match x with
  | NInt n => if Z.abs n <? FLOAT_INT_BOUND then Ok (inject_Z n) else Raise OverflowError
  | NFloat q => Ok q
  end.

Definition Qltb (x y : Q) : bool := negb (Qle_bool y x).

(** [a > b], [a <= b] between numbers are exact, also between an int and
    a float; any other operand is a [TypeError] (the code only compares
    with an int on the right). *)
Definition gt (a b : pyval) : result bool :=
  match as_number a, as_number b with
  | Some x, Some y => Ok (Qltb (number_value y) (number_value x))
  | _, _ => Raise TypeError
  end.

Definition le (a b : pyval) : result bool :=
  match as_number a, as_number b with
  | Some x, Some y => Ok (Qle_bool (number_value x) (number_value y))
  | _, _ => Raise TypeError
  end.

(** [a - b] *)
Definition sub (a b : pyval) : result pyval :=
  match as_number a, as_number b with
  | Some (NInt x), Some (NInt y) => Ok (PInt (x - y))
  | Some x, Some y =>
      match float_of_number x, float_of_number y with
      | Ok p, Ok q => Ok (PFloat (p - q))
      | Raise e, _ => Raise e
      | _, Raise e => Raise e
      end
  | _, _ => Raise TypeError
  end.

(** [a / b]: true division, always a float. *)
Definition truediv (a b : pyval) : result Q :=
  match as_number a, as_number b with
  | Some (NInt x), Some (NInt y) =>
      if y =? 0 then Raise ZeroDivisionError
      else if Z.abs x <? FLOAT_INT_BOUND * Z.abs y
           then Ok (inject_Z x / inject_Z y)%Q
           else Raise OverflowError
  | Some x, Some y =>
      match float_of_number x, float_of_number y with
      | Ok p, Ok q => if Qeq_bool q 0 then Raise ZeroDivisionError else Ok (p / q)%Q
      | Raise e, _ => Raise e
      | _, Raise e => Raise e
      end
  | _, _ => Raise TypeError
  end.

(** Nearest integer, ties to even. *)
Definition round_half_even (x : Q) : Z :=
  let f := Qfloor x in
  let r := (x - inject_Z f)%Q in
  if Qltb r (1 # 2) then f
  else if Qltb (1 # 2) r then f + 1
  else if Z.even f then f else f + 1.

(** [round(x, 2)] on a float. *)
Definition round2 (x : Q) : Q :=
  (inject_Z (round_half_even (x * 100)) / 100)%Q.

Definition lower_ascii (c : ascii) : ascii :=
  let n := nat_of_ascii c in
  if ((65 <=? n) && (n <=? 90))%nat then ascii_of_nat (n + 32) else c.

(** [s.lower()], on the ASCII letters. *)
Fixpoint lower (s : string) : string :=
  match s with
  | EmptyString => EmptyString
  | String c rest => String (lower_ascii c) (lower rest)
  end.

End Py.

(** The wall clock: the [n]-th call of [time.time()] returns [readings n]. *)
Record Clock := {
  readings : nat -> Q;
  ticks : nat;
}.

Definition time_time (c : Clock) : Q * Clock :=
  (readings c (ticks c), {| readings := readings c; ticks := S (ticks c) |}).

(* ===================================================================== *)
(** ** huginn.py                                                         *)
(* ===================================================================== *)

Module Huginn.
Import Py.

Definition DEFAULT_TESTNET_ENDPOINT : string :=
  "https://validator-api-testnet.huginn.tech/monad-api".

Definition DEFAULT_MAINNET_ENDPOINT : string :=
  "https://validator-api.huginn.tech/monad-api".

Definition DEFAULT_ENDPOINTS : gmap string string :=
  <["testnet" := DEFAULT_TESTNET_ENDPOINT]> (<["mainnet" := DEFAULT_MAINNET_ENDPOINT]> ∅).

Definition REFERENCE_VALIDATOR_IDS : gmap string (list Z) :=
  <["testnet" := [1; 2; 3; 4; 5]]> (<["mainnet" := [1; 2; 3; 4; 5]]> ∅).

Definition ACTIVE_SET_ROUND_THRESHOLD : Z := 10000.

Definition MAX_RETRIES : nat := 3.
Definition RETRY_BASE_DELAY : Q := 1.
Definition RETRY_MAX_DELAY : Q := 5.

Definition CIRCUIT_BREAKER_FAILURE_THRESHOLD : Z := 5.
Definition CIRCUIT_BREAKER_RECOVERY_TIME : Z := 60.

Inductive CircuitState :=
| CLOSED
| OPEN
| HALF_OPEN.

Record HuginnConfig := {
  endpoints : gmap string string;
  enabled : bool;
  check_interval : Z;
  timeout : Z;
  base_url : option string;
}.

(** [HuginnConfig()] *)
Definition default_config : HuginnConfig := {|
  endpoints := DEFAULT_ENDPOINTS;
  enabled := true;
  check_interval := 3600;
  timeout := 10;
  base_url := None;
|}.

Definition nonempty (s : string) : bool := negb (String.eqb s "").

Definition get_endpoint (self : HuginnConfig) (network : option string) : string :=
  let by_network :=
    let network_key :=
      lower (match network with
             | Some n => if nonempty n then n else "testnet"
             | None => "testnet"
             end) in
    default (default DEFAULT_TESTNET_ENDPOINT (endpoints self !! "testnet"))
            (endpoints self !! network_key) in
  match base_url self with
  | Some url => if nonempty url then url else by_network
  | None => by_network
  end.

Record ValidatorUptime := {
  validator_id : pyval;
  validator_name : pyval;
  secp_address : string;
  is_active : bool;
  is_ever_active : bool;
  uptime_percent : Q;
  finalized_count : pyval;
  timeout_count : pyval;
  total_events : pyval;
  last_round : pyval;
  last_block_height : pyval;
  since_utc : pyval;
  fetched_at : Q;
  round_diff : pyval;
  current_network_round : option Z;
  confidence : string;
}.

Definition optional_int (o : option Z) : pyval :=
  match o with Some n => PInt n | None => PNone end.

(** [ValidatorUptime.to_dict] *)
Definition to_dict (self : ValidatorUptime) : list (string * pyval) :=
  [ ("validator_id", validator_id self);
    ("validator_name", validator_name self);
    ("secp_address", PStr (secp_address self));
    ("is_active", PBool (is_active self));
    ("is_ever_active", PBool (is_ever_active self));
    ("uptime_percent", PFloat (uptime_percent self));
    ("finalized_count", finalized_count self);
    ("timeout_count", timeout_count self);
    ("total_events", total_events self);
    ("last_round", last_round self);
    ("last_block_height", last_block_height self);
    ("since_utc", since_utc self);
    ("fetched_at", PFloat (fetched_at self));
    ("round_diff", round_diff self);
    ("current_network_round", optional_int (current_network_round self));
    ("confidence", PStr (confidence self)) ].

(** *** CircuitBreaker *)

Record CircuitBreaker := {
  failure_threshold : Z;
  recovery_time : Z;
  failure_count : Z;
  state : CircuitState;
  last_failure_time : option Q;
}.

(** [CircuitBreaker(failure_threshold, recovery_time)] *)
Definition new_circuit_breaker (threshold recovery : Z) : CircuitBreaker := {|
  failure_threshold := threshold;
  recovery_time := recovery;
  failure_count := 0;
  state := CLOSED;
  last_failure_time := None;
|}.

Definition set_state (s : CircuitState) (self : CircuitBreaker) : CircuitBreaker := {|
  failure_threshold := failure_threshold self;
  recovery_time := recovery_time self;
  failure_count := failure_count self;
  state := s;
  last_failure_time := last_failure_time self;
|}.

(** [self.last_failure_time and ...]: [None] and [0.0] are falsy. *)
Definition truthy_time (t : option Q) : option Q :=
  match t with
  | Some x => if Qeq_bool x 0 then None else Some x
  | None => None
  end.

(** The clock is read only on the [OPEN] branch, and only when
    [last_failure_time] is truthy. *)
Definition can_execute (self : CircuitBreaker) (c : Clock) : bool * CircuitBreaker * Clock :=
  match state self with
  | CLOSED => (true, self, c)
  | OPEN =>
      match truthy_time (last_failure_time self) with
      | Some last =>
          let '(now, c') := time_time c in
          if Qle_bool (inject_Z (recovery_time self)) (now - last)
          then (true, set_state HALF_OPEN self, c')
          else (false, self, c')
      | None => (false, self, c)
      end
  | HALF_OPEN => (true, self, c)
  end.

Definition record_success (self : CircuitBreaker) : CircuitBreaker := {|
  failure_threshold := failure_threshold self;
  recovery_time := recovery_time self;
  failure_count := 0;
  state := CLOSED;
  last_failure_time := last_failure_time self;
|}.

Definition record_failure (self : CircuitBreaker) (c : Clock) : CircuitBreaker * Clock :=
  let count := failure_count self + 1 in
  let '(now, c') := time_time c in
  ({| failure_threshold := failure_threshold self;
      recovery_time := recovery_time self;
      failure_count := count;
      state := if failure_threshold self <=? count then OPEN else state self;
      last_failure_time := Some now |}, c').

Definition is_open (self : CircuitBreaker) : bool :=
  match state self with OPEN => true | _ => false end.

(** [n] calls of [record_failure] in a row. *)
Fixpoint record_failures (n : nat) (self : CircuitBreaker) (c : Clock) : CircuitBreaker * Clock :=
  match n with
  | O => (self, c)
  | S n' => let '(self', c') := record_failure self c in record_failures n' self' c'
  end.

(** *** The client and the world it runs in *)

Record HttpResponse := {
  status_code : Z;
  (** [response.json()]: [None] when the body is not valid JSON, in which
      case the call raises [ValueError]. *)
  json : option pyval;
}.

(** The outcome of one [requests.get]: a response, or a
    [RequestException] (connection error, timeout). *)
Inductive HttpOutcome :=
| Responded (response : HttpResponse)
| RequestException.

(** What the client does to the outside, in program order. *)
Inductive Event :=
| EvGet (url : string) (timeout : Z)
| EvSleep (delay : Q)
| EvRecordSuccess (network_key : string)
| EvRecordFailure (network_key : string).

Record Env := {
  clock : Clock;
  (** outcome of the [n]-th request of this client, for the URL asked *)
  http : nat -> string -> HttpOutcome;
  requests : nat;
  trace : list Event;
}.

Record HuginnClient := {
  config : HuginnConfig;
  _cache : gmap string ValidatorUptime;
  _cache_times : gmap string Q;
  _network_rounds : gmap string Z;
  _network_round_times : gmap string Q;
  _network_round_ttl : Z;
  _circuit_breakers : gmap string CircuitBreaker;
}.

(** [HuginnClient(config)] *)
Definition new_client (cfg : HuginnConfig) : HuginnClient := {|
  config := cfg;
  _cache := ∅;
  _cache_times := ∅;
  _network_rounds := ∅;
  _network_round_times := ∅;
  _network_round_ttl := 300;
  _circuit_breakers := ∅;
|}.

Record World := {
  self : HuginnClient;
  env : Env;
}.

Definition with_clock (c : Clock) (e : Env) : Env :=
  {| clock := c; http := http e; requests := requests e; trace := trace e |}.

Definition with_trace (t : list Event) (e : Env) : Env :=
  {| clock := clock e; http := http e; requests := requests e; trace := t |}.

Definition with_cache (cache : gmap string ValidatorUptime) (times : gmap string Q)
    (c : HuginnClient) : HuginnClient := {|
  config := config c;
  _cache := cache;
  _cache_times := times;
  _network_rounds := _network_rounds c;
  _network_round_times := _network_round_times c;
  _network_round_ttl := _network_round_ttl c;
  _circuit_breakers := _circuit_breakers c;
|}.

Definition with_network_rounds (rounds : gmap string Z) (times : gmap string Q)
    (c : HuginnClient) : HuginnClient := {|
  config := config c;
  _cache := _cache c;
  _cache_times := _cache_times c;
  _network_rounds := rounds;
  _network_round_times := times;
  _network_round_ttl := _network_round_ttl c;
  _circuit_breakers := _circuit_breakers c;
|}.

Definition with_circuit_breakers (breakers : gmap string CircuitBreaker)
    (c : HuginnClient) : HuginnClient := {|
  config := config c;
  _cache := _cache c;
  _cache_times := _cache_times c;
  _network_rounds := _network_rounds c;
  _network_round_times := _network_round_times c;
  _network_round_ttl := _network_round_ttl c;
  _circuit_breakers := breakers;
|}.

(** A method of the client: it may change the world and either returns or
    raises; what it changed before raising stays changed. *)
Definition M (A : Type) : Type := World -> result A * World.

Definition ret {A} (a : A) : M A := fun w => (Ok a, w).

Definition raise {A} (e : exn) : M A := fun w => (Raise e, w).

Definition bind {A B} (m : M A) (k : A -> M B) : M B :=
  fun w =>
    match m w with
    | (Ok a, w') => k a w'
    | (Raise e, w') => (Raise e, w')
    end.

Definition lift {A} (r : result A) : M A := fun w => (r, w).

Declare Scope huginn_scope.
Delimit Scope huginn_scope with huginn.

Notation "x <- m ;; k" := (bind m (fun x => k))
  (at level 100, m at next level, right associativity) : huginn_scope.
Notation "m ;; k" := (bind m (fun _ => k))
  (at level 100, right associativity) : huginn_scope.

Local Open Scope huginn_scope.

Definition get_self : M HuginnClient := fun w => (Ok (self w), w).

Definition set_self (f : HuginnClient -> HuginnClient) : M unit :=
  fun w => (Ok tt, {| self := f (self w); env := env w |}).

Definition emit (ev : Event) : M unit :=
  fun w => (Ok tt, {| self := self w; env := with_trace (trace (env w) ++ [ev]) (env w) |}).

(** [time.time()] *)
Definition now_ : M Q :=
  fun w =>
    let '(t, c) := time_time (clock (env w)) in
    (Ok t, {| self := self w; env := with_clock c (env w) |}).

(** [time.sleep(delay)] *)
Definition sleep (delay : Q) : M unit := emit (EvSleep delay).

(** [requests.get(url, timeout=timeout)] *)
Definition requests_get (url : string) (tmo : Z) : M HttpOutcome :=
  fun w =>
    let e := env w in
    (Ok (http e (requests e) url),
     {| self := self w;
        env := {| clock := clock e; http := http e; requests := S (requests e);
                  trace := trace e ++ [EvGet url tmo] |} |}).

(** [CircuitBreaker()] *)
Definition default_circuit_breaker : CircuitBreaker :=
  new_circuit_breaker CIRCUIT_BREAKER_FAILURE_THRESHOLD CIRCUIT_BREAKER_RECOVERY_TIME.

(** [_get_circuit_breaker]: the breaker object is referred to by its key
    in [_circuit_breakers], which is what the method returns here. *)
Definition _get_circuit_breaker (network : string) : M string :=
  let network_key := lower network in
  c <- get_self ;;
  match _circuit_breakers c !! network_key with
  | Some _ => ret network_key
  | None =>
      set_self (with_circuit_breakers (<[network_key := default_circuit_breaker]> (_circuit_breakers c))) ;;
      ret network_key
  end.

Definition breaker_at (network_key : string) (c : HuginnClient) : CircuitBreaker :=
  default default_circuit_breaker (_circuit_breakers c !! network_key).

(** [circuit_breaker.can_execute()] on the breaker stored under the key *)
Definition breaker_can_execute (network_key : string) : M bool :=
  fun w =>
    let '(allowed, cb, c) := can_execute (breaker_at network_key (self w)) (clock (env w)) in
    (Ok allowed,
     {| self := with_circuit_breakers (<[network_key := cb]> (_circuit_breakers (self w))) (self w);
        env := with_clock c (env w) |}).

(** [circuit_breaker.record_success()] *)
Definition breaker_record_success (network_key : string) : M unit :=
  fun w =>
    let cb := record_success (breaker_at network_key (self w)) in
    (Ok tt,
     {| self := with_circuit_breakers (<[network_key := cb]> (_circuit_breakers (self w))) (self w);
        env := with_trace (trace (env w) ++ [EvRecordSuccess network_key]) (env w) |}).

(** [circuit_breaker.record_failure()] *)
Definition breaker_record_failure (network_key : string) : M unit :=
  fun w =>
    let '(cb, c) := record_failure (breaker_at network_key (self w)) (clock (env w)) in
    (Ok tt,
     {| self := with_circuit_breakers (<[network_key := cb]> (_circuit_breakers (self w))) (self w);
        env := with_trace (trace (env w) ++ [EvRecordFailure network_key]) (with_clock c (env w)) |}).

(** [min(RETRY_BASE_DELAY * (2 ** attempt), RETRY_MAX_DELAY)] *)
Definition retry_delay (attempt : nat) : Q :=
  Qmin (RETRY_BASE_DELAY * inject_Z (2 ^ Z.of_nat attempt)) RETRY_MAX_DELAY.

(** The body of [for attempt in range(MAX_RETRIES)] and what follows the
    loop, over the attempts still to make. *)
Fixpoint retry_loop (attempts : list nat) (url network_key : string) (tmo : Z)
    : M (option HttpResponse) :=
  match attempts with
  | [] =>
      (* all retries failed *)
      breaker_record_failure network_key ;;
      ret None
  | attempt :: rest =>
      outcome <- requests_get url tmo ;;
      match outcome with
      | Responded response =>
          if status_code response <? 500 then
            breaker_record_success network_key ;;
            ret (Some response)
          else
            if (attempt <? MAX_RETRIES - 1)%nat then
              sleep (retry_delay attempt) ;;
              retry_loop rest url network_key tmo
            else
              breaker_record_failure network_key ;;
              ret (Some response)
      | RequestException =>
          if (attempt <? MAX_RETRIES - 1)%nat then
            sleep (retry_delay attempt) ;;
            retry_loop rest url network_key tmo
          else
            retry_loop rest url network_key tmo
      end
  end.

Definition _fetch_with_retry (url network : string) (tmo : Z) : M (option HttpResponse) :=
  circuit_breaker <- _get_circuit_breaker network ;;
  allowed <- breaker_can_execute circuit_breaker ;;
  if negb allowed then ret None
  else retry_loop (seq 0 MAX_RETRIES) url circuit_breaker tmo.

(** *** Network round *)

(** The secondary source, as far as this client uses it:
    [get_epoch_validators(network)] raises, returns [None], or returns the
    validators of the epoch. What the gmonads client does on the way, its
    own requests and clock readings (gmonads.py), is not part of [Env]:
    [requests] and [trace] are those of the Huginn client, and a property
    about all requests is stated without a gmonads client. *)
Record EpochValidator := {
  val_index : Z;
  validator_set_type : string;
}.

Inductive GmonadsReply :=
| GmRaises
| GmNone
| GmValidators (validators : list EpochValidator).

Definition GmonadsClient : Type := string -> GmonadsReply.

Definition _get_active_validator_id_via_gmonads (network : string)
    (gmonads_client : option GmonadsClient) : option Z :=
  match gmonads_client with
  | None => None
  | Some client =>
      match client network with
      | GmValidators validators =>
          match List.find (fun v => String.eqb (validator_set_type v) "active") validators with
          | Some validator => Some (val_index validator)
          | None => None
          end
      | GmNone => None
      | GmRaises => None
      end
  end.

(** The value of a truthy [int]. *)
Definition int_value (v : pyval) : option Z :=
  match v with
  | PInt n => Some n
  | PBool b => Some (Z.b2z b)
  | _ => None
  end.

(** What the body of a reference response reports:
<<
    if data.get("success") and "uptime" in data:
        current_round = data["uptime"].get("last_round")
        if current_round and isinstance(current_round, int): ...
>>
    [.get] on a body that is not a dict, or on an ["uptime"] that is not a
    dict, raises [AttributeError]. *)
Definition reported_round (data : pyval) : result (option Z) :=
  match data with
  | PDict items =>
      if truthy (dict_get items "success" PNone) && dict_contains items "uptime" then
        match get (dict_get items "uptime" PNone) "last_round" PNone with
        | Ok current_round =>
            Ok (if truthy current_round && is_int current_round
                then int_value current_round else None)
        | Raise e => Raise e
        end
      else Ok None
  | _ => Raise AttributeError
  end.

Definition uptime_url (base : string) (who : string) : string :=
  base +:+ "/validator/uptime/" +:+ who.

Definition store_network_round (network_key : string) (round : Z) (now : Q) : M unit :=
  set_self (fun c =>
    with_network_rounds (<[network_key := round]> (_network_rounds c))
                        (<[network_key := now]> (_network_round_times c)) c).

(** Strategy 1: the single validator named by gmonads. [Some round] is the
    early return of a fresh round; [None] falls through to strategy 2. *)
Definition query_hinted_validator (base network network_key : string) (now : Q)
    (active_validator_id : Z) : M (option Z) :=
  c <- get_self ;;
  response <- _fetch_with_retry (uptime_url base (pretty active_validator_id)) network
                                (timeout (config c)) ;;
  match response with
  | Some r =>
      if status_code r =? 200 then
        match json r with
        | Some data =>
            current_round <- lift (reported_round data) ;;
            match current_round with
            | Some round =>
                store_network_round network_key round now ;;
                ret (Some round)
            | None => ret None
            end
        | None => ret None (* ValueError, caught *)
        end
      else ret None
  | None => ret None
  end.

(** Strategy 2: the loop over the reference validators, collecting
    [successful_rounds]. *)
Fixpoint query_reference_validators (base network : string) (ref_ids : list Z)
    (successful_rounds : list Z) : M (list Z) :=
  match ref_ids with
  | [] => ret successful_rounds
  | ref_id :: rest =>
      c <- get_self ;;
      response <- _fetch_with_retry (uptime_url base (pretty ref_id)) network
                                    (timeout (config c)) ;;
      match response with
      | None => query_reference_validators base network rest successful_rounds
      | Some r =>
          if status_code r =? 429 then
            query_reference_validators base network rest successful_rounds
          else if 400 <=? status_code r then
            query_reference_validators base network rest successful_rounds
          else
            match json r with
            | None => (* ValueError, caught *)
                query_reference_validators base network rest successful_rounds
            | Some data =>
                current_round <- lift (reported_round data) ;;
                match current_round with
                | Some round =>
                    query_reference_validators base network rest (successful_rounds ++ [round])
                | None =>
                    query_reference_validators base network rest successful_rounds
                end
            end
      end
  end.

(** [max(successful_rounds)] on a non-empty list *)
Definition max_round (first : Z) (others : list Z) : Z :=
  fold_left Z.max others first.

Definition multi_validator_strategy (base network network_key : string) (now : Q)
    : M (option Z * bool) :=
  let ref_ids := default [1] (REFERENCE_VALIDATOR_IDS !! network_key) in
  successful_rounds <- query_reference_validators base network ref_ids [] ;;
  match successful_rounds with
  | first :: others =>
      let max_round := max_round first others in
      store_network_round network_key max_round now ;;
      ret (Some max_round, false)
  | [] =>
      c <- get_self ;;
      let cached_round := _network_rounds c !! network_key in
      ret (cached_round, bool_decide (is_Some cached_round))
  end.

(** The cache check at the head of [_get_current_network_round]. *)
Definition fresh_network_round (network_key : string) (now : Q) (c : HuginnClient) : option Z :=
  match _network_rounds c !! network_key with
  | Some round =>
      let cached_time := default 0%Q (_network_round_times c !! network_key) in
      if Qltb (now - cached_time) (inject_Z (_network_round_ttl c)) then Some round else None
  | None => None
  end.

Definition _get_current_network_round (network : string)
    (gmonads_client : option GmonadsClient) : M (option Z * bool) :=
  let network_key := lower network in
  now <- now_ ;;
  c <- get_self ;;
  match fresh_network_round network_key now c with
  | Some round => ret (Some round, true)
  | None =>
      let base := get_endpoint (config c) (Some network) in
      match _get_active_validator_id_via_gmonads network gmonads_client with
      | Some active_validator_id =>
          hinted <- query_hinted_validator base network network_key now active_validator_id ;;
          match hinted with
          | Some current_round => ret (Some current_round, false)
          | None => multi_validator_strategy base network network_key now
          end
      | None => multi_validator_strategy base network network_key now
      end
  end.

(** *** Uptime records *)

(** [data.get(key, 0) or 0] *)
Definition get_or_zero (data : pyval) (key : string) : result pyval :=
  match get data key (PInt 0) with
  | Ok v => Ok (or_ v (PInt 0))
  | Raise e => Raise e
  end.

Definition _parse_uptime_response (secp : string) (data : pyval)
    (network_round : option Z) (used_cached_round : bool) : M (option ValidatorUptime) :=
  if negb (truthy data) then ret None
  else
    total <- lift (get_or_zero data "total_events") ;;
    ever_active <- lift (gt total (PInt 0)) ;;
    finalized <- lift (get_or_zero data "finalized_count") ;;
    timeouts <- lift (get_or_zero data "timeout_count") ;;
    percent <- (if ever_active
                then ratio <- lift (truediv finalized total) ;; ret (ratio * 100)%Q
                else ret 0%Q) ;;
    validator_last_round <- lift (get data "last_round" PNone) ;;
    status <-
      match network_round with
      | Some current =>
          if negb (is_none validator_last_round) then
            diff <- lift (sub (PInt current) validator_last_round) ;;
            active <- lift (le diff (PInt ACTIVE_SET_ROUND_THRESHOLD)) ;;
            ret (diff, active, if used_cached_round then "medium" else "high")
          else if ever_active then ret (PNone, false, "unknown")
          else ret (PNone, false, "high")
      | None =>
          if ever_active then ret (PNone, false, "unknown")
          else ret (PNone, false, "high")
      end ;;
    let '(diff, active, conf) := status in
    id <- lift (get data "validator_id" PNone) ;;
    name <- lift (get data "validator_name" PNone) ;;
    height <- lift (get data "last_block_height" PNone) ;;
    since <- lift (get data "since_utc" PNone) ;;
    fetched <- now_ ;;
    ret (Some {|
      validator_id := id;
      validator_name := name;
      secp_address := secp;
      is_active := active;
      is_ever_active := ever_active;
      uptime_percent := round2 percent;
      finalized_count := finalized;
      timeout_count := timeouts;
      total_events := total;
      last_round := validator_last_round;
      last_block_height := height;
      since_utc := since;
      fetched_at := fetched;
      round_diff := diff;
      current_network_round := network_round;
      confidence := conf;
    |}).

Definition cache_key_of (network secp : string) : string :=
  lower network +:+ ":" +:+ lower secp.

(** The cache check at the head of [get_validator_uptime]. *)
Definition fresh_uptime (cache_key : string) (now : Q) (c : HuginnClient) : option ValidatorUptime :=
  match _cache c !! cache_key with
  | Some uptime =>
      let cached_time := default 0%Q (_cache_times c !! cache_key) in
      if Qltb (now - cached_time) (inject_Z (check_interval (config c))) then Some uptime else None
  | None => None
  end.

(** [return self._cache.get(cache_key)] *)
Definition cached_uptime (cache_key : string) : M (option ValidatorUptime) :=
  c <- get_self ;;
  ret (_cache c !! cache_key).

Definition get_validator_uptime (secp_address : option string) (network : string)
    (gmonads_client : option GmonadsClient) : M (option ValidatorUptime) :=
  match secp_address with
  | None => ret None
  | Some secp =>
      if negb (nonempty secp) then ret None
      else
        now <- now_ ;;
        let cache_key := cache_key_of network secp in
        c <- get_self ;;
        match fresh_uptime cache_key now c with
        | Some uptime => ret (Some uptime)
        | None =>
            round <- _get_current_network_round network gmonads_client ;;
            let '(network_round, used_cached_round) := round in
            let base := get_endpoint (config c) (Some network) in
            response <- _fetch_with_retry (uptime_url base secp) network (timeout (config c)) ;;
            match response with
            | None => cached_uptime cache_key
            | Some r =>
                if status_code r =? 429 then cached_uptime cache_key
                else if 400 <=? status_code r then cached_uptime cache_key
                else
                  match json r with
                  | None => cached_uptime cache_key (* ValueError, caught *)
                  | Some response_data =>
                      let data :=
                        match response_data with
                        | PDict items => dict_get items "uptime" response_data
                        | _ => response_data
                        end in
                      uptime <- _parse_uptime_response secp data network_round used_cached_round ;;
                      match uptime with
                      | Some u =>
                          set_self (fun c =>
                            with_cache (<[cache_key := u]> (_cache c))
                                       (<[cache_key := now]> (_cache_times c)) c) ;;
                          ret (Some u)
                      | None => ret None
                      end
                  end
            end
        end
  end.

Definition is_validator_active (secp_address : option string) (network : string)
    : M (option bool) :=
  uptime <- get_validator_uptime secp_address network None ;;
  ret (is_active <$> uptime).

(** The status message of [get_active_set_status], by its format string
    and the values it interpolates. *)
Inductive StatusMessage :=
| UnableToFetch
| NeverParticipated
| ActiveNoComparison
| ActiveBehind (round_diff : pyval)
| InactiveBehind (round_diff : pyval) (threshold : Z).

Definition message_format (m : StatusMessage) : string :=
  match m with
  | UnableToFetch => "Unable to fetch data"
  | NeverParticipated => "Never participated in consensus"
  | ActiveNoComparison => "Active (no round comparison available)"
  | ActiveBehind _ => "Active ({uptime.round_diff} rounds behind)"
  | InactiveBehind _ _ =>
      "Inactive ({uptime.round_diff} rounds behind - exceeds threshold of {ACTIVE_SET_ROUND_THRESHOLD})"
  end.

Definition get_active_set_status (secp_address : option string) (network : string)
    : M (option bool * StatusMessage * pyval) :=
  uptime <- get_validator_uptime secp_address network None ;;
  match uptime with
  | None => ret (None, UnableToFetch, PNone)
  | Some u =>
      if negb (is_ever_active u) then ret (Some false, NeverParticipated, PInt 0)
      else if is_none (round_diff u) then ret (Some true, ActiveNoComparison, PNone)
      else if is_active u then ret (Some true, ActiveBehind (round_diff u), round_diff u)
      else ret (Some false, InactiveBehind (round_diff u) ACTIVE_SET_ROUND_THRESHOLD, round_diff u)
  end.

(** *** Monitoring helpers *)

(** [cb.state.name] *)
Definition state_name (s : CircuitState) : string :=
  match s with
  | CLOSED => "CLOSED"
  | OPEN => "OPEN"
  | HALF_OPEN => "HALF_OPEN"
  end.

(** [get_circuit_breaker_status]: the values under ["state"],
    ["failure_count"] and ["is_open"]. *)
Definition get_circuit_breaker_status (network : string) : M (string * Z * bool) :=
  key <- _get_circuit_breaker network ;;
  c <- get_self ;;
  let cb := breaker_at key c in
  ret (state_name (state cb), failure_count cb, is_open cb).

Definition clear_cache : M unit :=
  set_self (fun c => with_network_rounds ∅ ∅ (with_cache ∅ ∅ c)).

Definition get_cache_age (secp network : string) : M (option Q) :=
  let cache_key := cache_key_of network secp in
  c <- get_self ;;
  match _cache_times c !! cache_key with
  | None => ret None
  | Some cached_time =>
      now <- now_ ;;
      ret (Some (now - cached_time)%Q)
  end.

End Huginn.

(* ===================================================================== *)
(** ** cross_validation.py                                               *)
(* ===================================================================== *)

Module CrossValidation.
Import Py.

Record CrossValidationResult := {
  validator_secp : string;
  huginn_is_active : option bool;
  gmonads_is_active : option bool;
  sources_agree : bool;
  confidence : string;
  recommended_status : bool;
}.

(** Returns [(confidence, sources_agree, recommended_status)]. *)
Definition _evaluate_sources (huginn gmonads : option bool) : string * bool * bool :=
  match huginn, gmonads with
  | None, None => ("low", true, false)
  | Some h, None => ("medium", true, h)
  | None, Some g => ("medium", true, g)
  | Some h, Some g =>
      if Bool.eqb h g then ("high", true, h)
      else ("low", false, h)
  end.

(** [validate_validator_status]: each source is asked inside its own
    [try ... except Exception], which turns a raise into [None]. The
    gmonads answer is given by its outcome. *)
Definition validate_validator_status (secp network : string)
    (gmonads_outcome : result (option bool)) (w : Huginn.World)
    : CrossValidationResult * Huginn.World :=
  let '(huginn_outcome, w') := Huginn.is_validator_active (Some secp) network w in
  let huginn := match huginn_outcome with Ok v => v | Raise _ => None end in
  let gmonads := match gmonads_outcome with Ok v => v | Raise _ => None end in
  let '(conf, agree, recommended) := _evaluate_sources huginn gmonads in
  ({| validator_secp := secp;
      huginn_is_active := huginn;
      gmonads_is_active := gmonads;
      sources_agree := agree;
      confidence := conf;
      recommended_status := recommended |}, w').

(** The fields of [ValidatorConfig] the cross-validator reads:
    [(name, validator_secp, network)]. *)
Definition ValidatorConfig : Type := string * string * string.

(** The gmonads answer for a key on a network. *)
Definition GmonadsAnswers : Type := string -> string -> result (option bool).

(** [validate_all_monitored]: the loop over the validators, filling
    [results]. *)
Fixpoint validate_all_monitored (gmonads : GmonadsAnswers) (validators : list ValidatorConfig)
    (results : gmap string CrossValidationResult) (w : Huginn.World)
    : gmap string CrossValidationResult * Huginn.World :=
  match validators with
  | [] => (results, w)
  | (name, secp, network) :: rest =>
      if String.eqb secp "" then validate_all_monitored gmonads rest results w
      else
        let '(result, w') := validate_validator_status secp network (gmonads secp network) w in
        validate_all_monitored gmonads rest (<[name := result]> results) w'
  end.

(** The dict returned by [get_summary]; [None] stands for [{"total": 0}]. *)
Record Summary := {
  total : nat;
  active : nat;
  inactive : nat;
  high_confidence : nat;
  medium_confidence : nat;
  low_confidence : nat;
  agreeing : nat;       (* "sources_agree" *)
  disagreeing : nat;    (* "sources_disagree" *)
}.

(** [sum(1 for r in results.values() if p(r))] *)
Definition count_values (p : CrossValidationResult -> bool)
    (results : gmap string CrossValidationResult) : nat :=
  length (List.filter p (snd <$> map_to_list results)).

Definition get_summary (results : gmap string CrossValidationResult) : option Summary :=
  let n := size results in
  if (n =? 0)%nat then None
  else
    let sources_agree_count := count_values sources_agree results in
    let active_count := count_values recommended_status results in
    Some {|
      total := n;
      active := active_count;
      inactive := n - active_count;
      high_confidence := count_values (fun r => String.eqb (confidence r) "high") results;
      medium_confidence := count_values (fun r => String.eqb (confidence r) "medium") results;
      low_confidence := count_values (fun r => String.eqb (confidence r) "low") results;
      agreeing := sources_agree_count;
      disagreeing := n - sources_agree_count;
    |}.

End CrossValidation.

(* ===================================================================== *)
(** ** state_machine.py                                                  *)
(* ===================================================================== *)

Module StateMachine.
Import Py.

Inductive ValidatorState :=
| NEW
| ACTIVE
| INACTIVE.

Definition state_eqb (a b : ValidatorState) : bool :=
  match a, b with
  | NEW, NEW | ACTIVE, ACTIVE | INACTIVE, INACTIVE => true
  | _, _ => false
  end.

(** [state.value] *)
Definition value (s : ValidatorState) : string :=
  match s with
  | NEW => "new"
  | ACTIVE => "active"
  | INACTIVE => "inactive"
  end.

(** [ValidatorState(v)]: the member whose value is [v], else [ValueError]. *)
Definition ValidatorState_of_value (v : pyval) : result ValidatorState :=
  match v with
  | PStr s =>
      if String.eqb s "new" then Ok NEW
      else if String.eqb s "active" then Ok ACTIVE
      else if String.eqb s "inactive" then Ok INACTIVE
      else Raise ValueError
  | _ => Raise ValueError
  end.

(** The transition carries the name of its validator in
    [transition_validator_name] (the dataclass field [validator_name]). *)
Record StateTransition := {
  from_state : ValidatorState;
  to_state : ValidatorState;
  transition_validator_name : string;
  timestamp : Q;
  metadata : list (string * pyval);
}.

Definition is_significant (self : StateTransition) : bool :=
  negb (state_eqb (from_state self) (to_state self)).

(** The text of [get_alert_message], by the branch that builds it. *)
Inductive AlertMessage :=
| EnteredActiveSet (name : string)
| LeftActiveSet (name : string) (round_diff : option pyval)
| ReEnteredActiveSet (name : string)
| StateChanged (name : string) (from to : string).

Definition get_alert_message (self : StateTransition) : AlertMessage :=
  match from_state self, to_state self with
  | NEW, ACTIVE => EnteredActiveSet (transition_validator_name self)
  | ACTIVE, INACTIVE =>
      LeftActiveSet (transition_validator_name self) (lookup_item "round_diff" (metadata self))
  | INACTIVE, ACTIVE => ReEnteredActiveSet (transition_validator_name self)
  | from, to => StateChanged (transition_validator_name self) (value from) (value to)
  end.

Record ValidatorStateMachine := {
  validator_name : string;
  current_state : ValidatorState;
  _state_entered_at : pyval;
  _transition_history : list StateTransition;
}.

(** [ValidatorStateMachine(validator_name, initial_state)] *)
Definition new_machine (name : string) (initial_state : option ValidatorState) (c : Clock)
    : ValidatorStateMachine * Clock :=
  let '(now, c') := time_time c in
  ({| validator_name := name;
      current_state := default NEW initial_state;
      _state_entered_at := PFloat now;
      _transition_history := [] |}, c').

Definition update (is_active is_ever_active : bool) (meta : option (list (string * pyval)))
    (self : ValidatorStateMachine) (c : Clock)
    : option StateTransition * ValidatorStateMachine * Clock :=
  let new_state :=
    if is_active then ACTIVE
    else if is_ever_active then INACTIVE
    else NEW in
  if state_eqb new_state (current_state self) then (None, self, c)
  else
    let '(stamp, c1) := time_time c in
    let transition := {|
      from_state := current_state self;
      to_state := new_state;
      transition_validator_name := validator_name self;
      timestamp := stamp;
      metadata := default [] meta;
    |} in
    let '(entered, c2) := time_time c1 in
    (Some transition,
     {| validator_name := validator_name self;
        current_state := new_state;
        _state_entered_at := PFloat entered;
        _transition_history := _transition_history self ++ [transition] |},
     c2).

Definition get_alert_threshold (self : ValidatorStateMachine) : string :=
  match current_state self with
  | NEW => "minimal"
  | ACTIVE => "full"
  | INACTIVE => "recovery"
  end.

Definition ALWAYS_ALERT_TYPES : list string :=
  ["node_down"; "connection_failed"; "rpc_error"].

Definition ACTIVE_ONLY_ALERT_TYPES : list string :=
  ["local_timeout"; "ts_validation_fail"; "execution_lagging"].

Definition should_alert_on (alert_type : string) (self : ValidatorStateMachine) : bool :=
  if existsb (String.eqb alert_type) ALWAYS_ALERT_TYPES then true
  else if existsb (String.eqb alert_type) ACTIVE_ONLY_ALERT_TYPES
       then state_eqb (current_state self) ACTIVE
  else
    let threshold := get_alert_threshold self in
    if String.eqb threshold "minimal" then false
    else if String.eqb threshold "recovery" then false
    else true.

Definition to_dict (self : ValidatorStateMachine) : pyval :=
  PDict [ ("validator_name", PStr (validator_name self));
          ("current_state", PStr (value (current_state self)));
          ("state_entered_at", _state_entered_at self);
          ("transition_count", PInt (Z.of_nat (length (_transition_history self)))) ].

Definition DEFAULT_VALIDATOR_NAME : string := "unknown".
Definition DEFAULT_STATE : ValidatorState := NEW.

Definition from_dict (data : pyval) (c : Clock) : result ValidatorStateMachine * Clock :=
  match data with
  | PDict items =>
      let name :=
        match dict_get items "validator_name" PNone with
        | PStr s => if String.eqb s "" then DEFAULT_VALIDATOR_NAME else s
        | _ => DEFAULT_VALIDATOR_NAME
        end in
      let current_state_value := dict_get items "current_state" PNone in
      let parsed :=
        if negb (is_none current_state_value) then
          match ValidatorState_of_value current_state_value with
          | Ok st => Ok st
          | Raise ValueError => Ok DEFAULT_STATE
          | Raise TypeError => Ok DEFAULT_STATE
          | Raise e => Raise e
          end
        else Ok DEFAULT_STATE in
      match parsed with
      | Ok initial_state =>
          let '(machine, c1) := new_machine name (Some initial_state) c in
          (* the default of [data.get("state_entered_at", time.time())] is
             evaluated whether the key is there or not *)
          let '(now, c2) := time_time c1 in
          (Ok {| validator_name := validator_name machine;
                 current_state := current_state machine;
                 _state_entered_at := dict_get items "state_entered_at" (PFloat now);
                 _transition_history := _transition_history machine |}, c2)
      | Raise e => (Raise e, c)
      end
  | _ =>
      let '(machine, c') := new_machine DEFAULT_VALIDATOR_NAME (Some DEFAULT_STATE) c in
      (Ok machine, c')
  end.

(** What reading the state file gives: no file, an empty file, an
    [OSError] on the way, or the text, which [json.load] parses or rejects
    with [JSONDecodeError]. *)
Inductive StateFile :=
| FileMissing
| FileEmpty
| FileError
| FileText (parsed : option pyval).

Definition load_state (file : StateFile) (c : Clock) : ValidatorStateMachine * Clock :=
  let '(default_machine, c1) := new_machine "unknown" (Some NEW) c in
  match file with
  | FileMissing => (default_machine, c1)
  | FileEmpty => (default_machine, c1)
  | FileError => (default_machine, c1)
  | FileText None => (default_machine, c1)
  | FileText (Some data) =>
      match from_dict data c1 with
      | (Ok machine, c2) => (machine, c2)
      | (Raise _, c2) => (default_machine, c2)
      end
  end.

Definition get_transition_history (self : ValidatorStateMachine) : list StateTransition :=
  _transition_history self.

(** [time.time() - self._state_entered_at] *)
Definition get_state_duration (self : ValidatorStateMachine) (c : Clock) : result pyval * Clock :=
  let '(now, c') := time_time c in
  (sub (PFloat now) (_state_entered_at self), c').

(** Whether the file could be written ([OSError] otherwise). *)
Inductive WriteOutcome :=
| Written
| WriteFails.

(** [save_state]: the flag it returns and, when the write went through,
    the file as [load_state] will find it: [json.load] gives back what
    [json.dump] wrote. *)
Definition save_state (self : ValidatorStateMachine) (disk : WriteOutcome)
    : bool * option StateFile :=
  match disk with
  | Written => (true, Some (FileText (Some (to_dict self))))
  | WriteFails => (false, None)
  end.

End StateMachine.

(* ===================================================================== *)
(** ** main.py: the monitoring loop drives the state machine             *)
(* ===================================================================== *)

Module Main.
Import Py StateMachine.

(** One check of one validator, from "Update state machine with validator
    status" to the alert on a significant transition. The inputs are
    [health_status.is_active_validator] and [health_status.huginn_data];
    the outputs are the transition, the messages passed to
    [alerts.alert_info], and the machine. *)
Definition update_state_machine (is_active : option bool)
    (huginn_data : option (list (string * pyval)))
    (state_machine : ValidatorStateMachine) (c : Clock)
    : option StateTransition * list AlertMessage * ValidatorStateMachine * Clock :=
  let data_present :=
    match huginn_data with
    | Some items => truthy (PDict items)
    | None => false
    end in
  let is_ever_active :=
    match huginn_data with
    | Some items => if data_present then dict_get items "is_ever_active" (PBool false)
                    else PBool false
    | None => PBool false
    end in
  let '(transition, machine, c') :=
    if state_eqb (current_state state_machine) NEW && truthy is_ever_active then
      let '(now, c1) := time_time c in
      (None,
       {| validator_name := validator_name state_machine;
          current_state := if default false is_active then ACTIVE else INACTIVE;
          _state_entered_at := PFloat now;
          _transition_history := _transition_history state_machine |},
       c1)
    else
      let is_ever_active :=
        match is_ever_active with
        | PBool false =>
            if negb (state_eqb (current_state state_machine) NEW) then PBool true
            else is_ever_active
        | _ => is_ever_active
        end in
      update (default false is_active) (truthy is_ever_active)
             (match huginn_data with
              | Some items =>
                  if data_present then Some [("round_diff", dict_get items "round_diff" PNone)]
                  else Some []
              | None => Some []
              end)
             state_machine c in
  let alerts :=
    match transition with
    | Some t => if is_significant t then [get_alert_message t] else []
    | None => []
    end in
  (transition, alerts, machine, c').

(** What one pass of the loop sees for a validator: the active flag and
    the Huginn record it came with, if any; [huginn_data] is the record's
    [to_dict()]. *)
Record Observation := {
  is_active_validator : option bool;
  huginn_uptime : option Huginn.ValidatorUptime;
}.

Definition check (o : Observation) (state_machine : ValidatorStateMachine) (c : Clock)
    : option StateTransition * list AlertMessage * ValidatorStateMachine * Clock :=
  update_state_machine (is_active_validator o) (Huginn.to_dict <$> huginn_uptime o)
                       state_machine c.

(** Successive checks of the same validator. *)
Fixpoint checks (os : list Observation) (state_machine : ValidatorStateMachine) (c : Clock)
    : ValidatorStateMachine * Clock :=
  match os with
  | [] => (state_machine, c)
  | o :: rest =>
      let '(_, _, machine, c') := check o state_machine c in
      checks rest machine c'
  end.

(** *** Persisted state at start-up *)

(** [s.replace(old, new)] for one-character [old] and [new]. *)
Fixpoint replace_char (old new : ascii) (s : string) : string :=
  match s with
  | EmptyString => EmptyString
  | String c rest =>
      String (if Ascii.eqb c old then new else c) (replace_char old new rest)
  end.

Definition safe_name (name : string) : string :=
  replace_char "\" "_" (replace_char "/" "_" (replace_char " " "_" name)).

(** The file name joined to [state_dir]. *)
Definition state_file_name (name : string) : string :=
  "state_" +:+ safe_name name +:+ ".json".

(** The machine a validator starts with, given what its state file
    holds. *)
Definition restore_state_machine (name : string) (file : StateFile) (c : Clock)
    : ValidatorStateMachine * Clock :=
  let '(loaded_machine, c1) := load_state file c in
  if String.eqb (validator_name loaded_machine) name then (loaded_machine, c1)
  else new_machine name None c1.

(** *** Warning and critical counters *)

(** [msg.split(":")[0]] *)
Fixpoint split_head (msg : string) : string :=
  match msg with
  | EmptyString => EmptyString
  | String c rest => if Ascii.eqb c ":" then EmptyString else String c (split_head rest)
  end.

(** The loop over the messages of a check: each one adds 1 to the count
    of its key; a count that reaches [threshold] sends the message and
    drops to -10. Returns the messages sent and the counts. *)
Fixpoint track_occurrences (threshold : Z) (messages : list string) (counts : gmap string Z)
    : list string * gmap string Z :=
  match messages with
  | [] => ([], counts)
  | msg :: rest =>
      let key := split_head msg in
      let count := default 0 (counts !! key) + 1 in
      if count =? threshold then
        let '(sent, counts') := track_occurrences threshold rest (<[key := -10]> counts) in
        (msg :: sent, counts')
      else track_occurrences threshold rest (<[key := count]> counts)
  end.

(** The loop of a check without messages: a negative count moves one up,
    any other goes back to 0. *)
Definition reset_counts (counts : gmap string Z) : gmap string Z :=
  (fun count => if count <? 0 then count + 1 else 0) <$> counts.

(** "Handle warnings": the alert after 3 occurrences. *)
Definition handle_warnings (warnings : list string) (warning_counts : gmap string Z)
    : list string * gmap string Z :=
  match warnings with
  | [] => ([], reset_counts warning_counts)
  | _ :: _ => track_occurrences 3 warnings warning_counts
  end.

(** "Handle critical resource alerts": the alert after 2 occurrences. *)
Definition handle_criticals (criticals : list string) (critical_counts : gmap string Z)
    : list string * gmap string Z :=
  match criticals with
  | [] => ([], reset_counts critical_counts)
  | _ :: _ => track_occurrences 2 criticals critical_counts
  end.

End Main.

(* ===================================================================== *)
(** * Properties                                                         *)
(* ===================================================================== *)

(** A clock for the examples: the [n]-th reading is [1700000000 + n]. *)
Definition example_clock : Clock :=
  {| readings := fun n => inject_Z (Z.of_nat n + 1700000000); ticks := 0 |}.

(** ** Cross-validation *)

Module CrossValidationProofs.
Import CrossValidation.

(** C3. [_evaluate_sources] is the decision table: no source gives
    (low, agree, inactive); one source gives (medium, agree, its value);
    two equal values give (high, agree, the value); two different values
    give (low, disagree, the value of source a). *)
Theorem evaluate_sources_table :
  _evaluate_sources None None = ("low", true, false)
  /\ (forall a, _evaluate_sources (Some a) None = ("medium", true, a))
  /\ (forall b, _evaluate_sources None (Some b) = ("medium", true, b))
  /\ (forall a, _evaluate_sources (Some a) (Some a) = ("high", true, a))
  /\ (forall a b, a <> b -> _evaluate_sources (Some a) (Some b) = ("low", false, a)).
Proof.
  repeat split; try reflexivity.
  - intros a. unfold _evaluate_sources. now rewrite Bool.eqb_reflx.
  - intros a b Hab. unfold _evaluate_sources.
    destruct (Bool.eqb a b) eqn:E; [|reflexivity].
    apply Bool.eqb_prop in E. contradiction.
Qed.

Lemma evaluate_sources_table_witness :
  true <> false /\ _evaluate_sources (Some true) (Some false) = ("low", false, true).
Proof.
  split; [discriminate|].
  apply (proj2 (proj2 (proj2 (proj2 evaluate_sources_table)))). discriminate.
Defined.

End CrossValidationProofs.

(** ** The lifecycle state machine *)

Module StateMachineProofs.
Import Py StateMachine.

Lemma state_eqb_eq a b : state_eqb a b = true <-> a = b.
Proof. destruct a, b; simpl; split; congruence. Qed.

Lemma state_eqb_refl a : state_eqb a a = true.
Proof. now destruct a. Qed.

Lemma ValidatorState_of_value_value s : ValidatorState_of_value (PStr (value s)) = Ok s.
Proof. now destruct s. Qed.

(** The only exception [ValidatorState(v)] raises is [ValueError]. *)
Lemma ValidatorState_of_value_raises v e :
  ValidatorState_of_value v = Raise e -> e = ValueError.
Proof.
  destruct v; simpl; try congruence.
  repeat (match goal with |- context [if ?b then _ else _] => destruct b end);
    congruence.
Qed.

(** [from_dict] returns a machine whatever it is given. *)
Lemma from_dict_returns data c : exists machine c', from_dict data c = (Ok machine, c').
Proof.
  destruct data; simpl; eauto.
  destruct (negb (is_none (dict_get items "current_state" PNone))); simpl; eauto.
  destruct (ValidatorState_of_value _) as [st|e] eqn:E; simpl; eauto.
  apply ValidatorState_of_value_raises in E. subst e. simpl. eauto.
Qed.

(** [load_state] gives the default machine for a missing, empty,
    unreadable or unparsable file. *)
Lemma load_state_default file c :
  match file with FileText (Some _) => False | _ => True end ->
  let machine := fst (load_state file c) in
  current_state machine = NEW /\ validator_name machine = "unknown".
Proof. destruct file as [| | |[d|]]; simpl; tauto. Qed.

Definition nameless_machine : ValidatorStateMachine := {|
  validator_name := "";
  current_state := ACTIVE;
  _state_entered_at := PFloat 1700000000;
  _transition_history := [];
|}.

(** C8, as stated, fails for a machine whose name is the empty string:
    [from_dict] takes an empty [validator_name] for a missing one, and the
    machine comes back named "unknown". *)
Lemma from_dict_to_dict_nameless :
  fst (from_dict (to_dict nameless_machine) example_clock)
    = Ok {| validator_name := "unknown";
            current_state := ACTIVE;
            _state_entered_at := PFloat 1700000000;
            _transition_history := [] |}
  /\ validator_name nameless_machine = "".
Proof. split; reflexivity. Qed.

(** C8 (amended). For a machine with a non-empty name,
    [from_dict(machine.to_dict())] has the state and the name of the
    machine; [from_dict({})], [from_dict(None)] and
    [from_dict("not a dict")] return a machine in state NEW named
    "unknown". *)
Theorem from_dict_to_dict (m : ValidatorStateMachine) (c : Clock) :
  validator_name m <> "" ->
  (exists m' c', from_dict (to_dict m) c = (Ok m', c')
                 /\ current_state m' = current_state m
                 /\ validator_name m' = validator_name m)
  /\ (forall data, data = PDict [] \/ data = PNone \/ data = PStr "not a dict" ->
        exists m' c', from_dict data c = (Ok m', c')
                      /\ current_state m' = NEW
                      /\ validator_name m' = "unknown").
Proof.
  intros Hname. split.
  - unfold to_dict, from_dict.
    change (dict_get _ "validator_name" PNone) with (PStr (validator_name m)).
    change (dict_get _ "current_state" PNone) with (PStr (value (current_state m))).
    rewrite ValidatorState_of_value_value. simpl.
    destruct (String.eqb_spec (validator_name m) "") as [E|_]; [contradiction|].
    eauto.
  - intros data [->|[->| ->]]; simpl; eauto.
Qed.

Definition named_machine : ValidatorStateMachine := {|
  validator_name := "validator-1";
  current_state := INACTIVE;
  _state_entered_at := PFloat 1700000000;
  _transition_history := [];
|}.

Lemma from_dict_to_dict_witness :
  exists m' c', from_dict (to_dict named_machine) example_clock = (Ok m', c')
                /\ current_state m' = INACTIVE
                /\ validator_name m' = "validator-1".
Proof.
  apply (from_dict_to_dict named_machine example_clock). discriminate.
Defined.

End StateMachineProofs.

(** ** The monitoring loop and the state machine *)

Module MainProofs.
Import Py StateMachine Main StateMachineProofs.

(** After [update] the machine is in the target state, changed or not. *)
Lemma update_current_state is_active is_ever_active meta sm c :
  current_state (snd (fst (update is_active is_ever_active meta sm c))) =
    if is_active then ACTIVE else if is_ever_active then INACTIVE else NEW.
Proof.
  unfold update.
  destruct (state_eqb _ (current_state sm)) eqn:E; simpl; [|reflexivity].
  apply state_eqb_eq in E. now rewrite <- E.
Qed.

#[local] Arguments update : simpl never.

(** On its own [update] does go back to NEW: the loop never calls it that
    way once the machine has left NEW. *)
Remark update_alone_returns_to_new :
  let sm := fst (new_machine "validator-1" (Some ACTIVE) example_clock) in
  current_state (snd (fst (update false false None sm example_clock))) = NEW.
Proof. reflexivity. Qed.

(** [huginn_data] made by [to_dict()] carries [is_ever_active] as a bool. *)
Lemma to_dict_is_ever_active u :
  dict_get (Huginn.to_dict u) "is_ever_active" (PBool false) = PBool (Huginn.is_ever_active u).
Proof. reflexivity. Qed.

Lemma check_keeps_out_of_new o sm c :
  current_state sm <> NEW ->
  current_state (snd (fst (check o sm c))) <> NEW.
Proof.
  intros Hsm.
  assert (state_eqb (current_state sm) NEW = false) as Hneq.
  { destruct (current_state sm); simpl; congruence. }
  unfold check, update_state_machine.
  destruct o as [flag [u|]]; simpl; rewrite Hneq; simpl;
    [destruct (Huginn.is_ever_active u) eqn:Eu; simpl|];
    match goal with
    | |- context [update ?a ?e ?m sm c] =>
        pose proof (update_current_state a e m sm c) as Hup;
        destruct (update a e m sm c) as [[tr machine] c']
    end;
    simpl in Hup |- *; rewrite Hup;
    destruct (default false flag); try discriminate;
    rewrite Eu; discriminate.
Qed.

(** C2. Once the machine has left NEW, no sequence of checks of the
    monitoring loop brings [current_state] back to NEW. *)
Theorem never_back_to_new (os : list Observation) (sm : ValidatorStateMachine) (c : Clock) :
  current_state sm <> NEW ->
  current_state (fst (checks os sm c)) <> NEW.
Proof.
  revert sm c. induction os as [|o rest IH]; intros sm c Hsm; simpl; [exact Hsm|].
  pose proof (check_keeps_out_of_new o sm c Hsm) as Hstep.
  destruct (check o sm c) as [[[tr alerts] machine] c']. simpl in Hstep.
  now apply IH.
Qed.

(** Two checks without any Huginn record and without an active flag. *)
Definition blind_observations : list Observation :=
  [ {| is_active_validator := None; huginn_uptime := None |};
    {| is_active_validator := Some false; huginn_uptime := None |} ].

Lemma never_back_to_new_witness :
  current_state (fst (checks blind_observations named_machine example_clock)) <> NEW.
Proof.
  apply (never_back_to_new blind_observations named_machine example_clock).
  discriminate.
Defined.

(** C9. A machine still in NEW that sees [is_ever_active] true is put
    directly in ACTIVE (if [is_active]) or INACTIVE (otherwise): the check
    yields no transition, records none in the history and sends no alert. *)
Theorem restart_assigns_state_directly
    (is_active : option bool) (huginn_data : list (string * pyval))
    (sm : ValidatorStateMachine) (c : Clock) :
  current_state sm = NEW ->
  truthy (dict_get huginn_data "is_ever_active" (PBool false)) = true ->
  exists machine c',
    update_state_machine is_active (Some huginn_data) sm c = (None, [], machine, c')
    /\ current_state machine = (if default false is_active then ACTIVE else INACTIVE)
    /\ _transition_history machine = _transition_history sm.
Proof.
  intros Hnew Hever. unfold update_state_machine.
  assert (truthy (PDict huginn_data) = true) as Hdata.
  { destruct huginn_data; [discriminate Hever|reflexivity]. }
  rewrite Hdata, Hnew, Hever. simpl. eauto.
Qed.

Lemma restart_assigns_state_directly_witness :
  exists machine c',
    update_state_machine (Some true) (Some [("is_ever_active", PBool true)])
      (fst (new_machine "validator-1" None example_clock)) example_clock
      = (None, [], machine, c')
    /\ current_state machine = ACTIVE
    /\ _transition_history machine = [].
Proof.
  apply (restart_assigns_state_directly (Some true) [("is_ever_active", PBool true)]
           (fst (new_machine "validator-1" None example_clock)) example_clock);
    reflexivity.
Defined.

End MainProofs.

(** ** The circuit breaker *)

Module CircuitBreakerProofs.
Import Py Huginn.

Definition advance (n : nat) (c : Clock) : Clock :=
  {| readings := readings c; ticks := (n + ticks c)%nat |}.

(** [failure_count] never goes below zero. *)
Lemma failure_count_nonneg_success cb : 0 <= failure_count (record_success cb).
Proof. simpl. lia. Qed.

Lemma failure_count_nonneg_failure cb c :
  0 <= failure_count cb -> 0 <= failure_count (fst (record_failure cb c)).
Proof. simpl. lia. Qed.

Lemma failure_count_nonneg_can_execute cb c :
  0 <= failure_count cb -> 0 <= failure_count (snd (fst (can_execute cb c))).
Proof.
  unfold can_execute.
  destruct (state cb); simpl; try easy.
  destruct (truthy_time _); simpl; try easy.
  destruct (Qle_bool _ _); simpl; easy.
Qed.

(** [n] failures in a row: the count grows by [n], the time of the last
    one is kept, and the breaker is open once the count has reached the
    threshold. *)
Lemma record_failures_S n cb c :
  record_failures (S n) cb c =
    record_failures n (fst (record_failure cb c)) (snd (record_failure cb c)).
Proof. reflexivity. Qed.

Lemma record_failures_spec (n : nat) : forall cb c,
  let cb' := fst (record_failures (S n) cb c) in
  failure_count cb' = failure_count cb + Z.of_nat (S n)
  /\ last_failure_time cb' = Some (readings c (n + ticks c)%nat)
  /\ failure_threshold cb' = failure_threshold cb
  /\ recovery_time cb' = recovery_time cb
  /\ snd (record_failures (S n) cb c) = advance (S n) c
  /\ (failure_threshold cb <= failure_count cb + Z.of_nat (S n) -> state cb' = OPEN).
Proof.
  induction n as [|n IH]; intros cb c; cbv zeta.
  - simpl. unfold advance.
    repeat split; try reflexivity.
    intros H. destruct (Z.leb_spec (failure_threshold cb) (failure_count cb + 1)); [reflexivity|lia].
  - rewrite record_failures_S.
    destruct (IH (fst (record_failure cb c)) (snd (record_failure cb c)))
      as (Hcount & Hlast & Hthr & Hrec & Hclock & Hopen).
    rewrite Hcount, Hlast, Hthr, Hrec, Hclock.
    assert (failure_count (fst (record_failure cb c)) = failure_count cb + 1) as Hc1
      by reflexivity.
    rewrite Hc1 in *.
    change (failure_threshold (fst (record_failure cb c))) with (failure_threshold cb) in *.
    change (recovery_time (fst (record_failure cb c))) with (recovery_time cb).
    change (snd (record_failure cb c)) with (advance 1 c).
    unfold advance. cbn [readings ticks].
    replace (n + (1 + ticks c))%nat with (S n + ticks c)%nat by lia.
    replace (S n + (1 + ticks c))%nat with (S (S n) + ticks c)%nat by lia.
    repeat split; try reflexivity; try lia.
    intros H. apply Hopen. lia.
Qed.

(** C5. After [failure_threshold] failures in a row the breaker is OPEN.
    From then on [can_execute()] is False while less than [recovery_time]
    has passed since the last failure, and True, moving the breaker to
    HALF_OPEN, once at least [recovery_time] has passed; a
    [record_success()] after that closes the breaker and resets the count.
    The clock reading at the last failure is taken to be a real time, not
    0.0 (which the code cannot tell from "no failure yet"). *)
Theorem circuit_breaker_cycle (cb : CircuitBreaker) (c : Clock) :
  0 < failure_threshold cb ->
  0 <= failure_count cb ->
  let n := Z.to_nat (failure_threshold cb) in
  let opened := fst (record_failures n cb c) in
  let last := readings c (ticks c + n - 1)%nat in
  ~ (last == 0)%Q ->
  state opened = OPEN
  /\ forall later : Clock,
       let now := readings later (ticks later) in
       ((now - last < inject_Z (recovery_time cb))%Q ->
          can_execute opened later = (false, opened, advance 1 later))
       /\ ((inject_Z (recovery_time cb) <= now - last)%Q ->
          exists half_open,
            can_execute opened later = (true, half_open, advance 1 later)
            /\ state half_open = HALF_OPEN
            /\ state (record_success half_open) = CLOSED
            /\ failure_count (record_success half_open) = 0).
Proof.
  intros Hthr Hcount n opened last Hlast.
  assert (exists k, n = S k) as [k Hk].
  { exists (Nat.pred n). subst n. lia. }
  pose proof (record_failures_spec k cb c) as Hspec. cbv zeta in Hspec.
  rewrite <- Hk in Hspec. fold opened in Hspec.
  destruct Hspec as (_ & Hl & _ & Hrec & _ & Hopen).
  replace (k + ticks c)%nat with (ticks c + n - 1)%nat in Hl by lia. fold last in Hl.
  assert (state opened = OPEN) as Hstate by (apply Hopen; subst n; lia).
  split; [exact Hstate|].
  intros later now.
  assert (truthy_time (last_failure_time opened) = Some last) as Htruthy.
  { rewrite Hl. simpl. destruct (Qeq_bool last 0) eqn:E; [|reflexivity].
    apply Qeq_bool_iff in E. contradiction. }
  assert (time_time later = (now, advance 1 later)) as Htime.
  { reflexivity. }
  unfold can_execute. rewrite Hstate, Htruthy, Htime, Hrec.
  split; intros Hcmp.
  - destruct (Qle_bool _ _) eqn:E; [|reflexivity].
    apply Qle_bool_iff in E. lra.
  - destruct (Qle_bool _ _) eqn:E.
    + eexists. repeat split; reflexivity.
    + apply Qle_bool_iff in Hcmp. congruence.
Qed.

Lemma circuit_breaker_cycle_witness :
  let opened := fst (record_failures 5 default_circuit_breaker example_clock) in
  state opened = OPEN
  /\ can_execute opened (advance 5 example_clock) = (false, opened, advance 6 example_clock).
Proof.
  assert (0 < failure_threshold default_circuit_breaker) as H1 by reflexivity.
  assert (0 <= failure_count default_circuit_breaker) as H2 by discriminate.
  assert (~ (readings example_clock
               (ticks example_clock
                + Z.to_nat (failure_threshold default_circuit_breaker) - 1)%nat == 0)%Q) as H3
    by discriminate.
  destruct (circuit_breaker_cycle default_circuit_breaker example_clock H1 H2 H3)
    as [Hopen Hlater].
  split; [exact Hopen|].
  apply (proj1 (Hlater (advance 5 example_clock))). reflexivity.
Defined.

End CircuitBreakerProofs.

(** ** The Huginn client *)

Module HuginnProofs.
Import Py Huginn.
Local Open Scope huginn_scope.

Lemma Qle_bool_inject_Z a b : Qle_bool (inject_Z a) (inject_Z b) = (a <=? b).
Proof.
  destruct (Z.leb_spec a b) as [H|H].
  - apply Qle_bool_iff. now rewrite <- Zle_Qle.
  - destruct (Qle_bool _ _) eqn:E; [|reflexivity].
    apply Qle_bool_iff in E. rewrite <- Zle_Qle in E. lia.
Qed.

Lemma Qltb_inject_Z a b : Qltb (inject_Z a) (inject_Z b) = (a <? b).
Proof. unfold Qltb. rewrite Qle_bool_inject_Z. rewrite Z.ltb_antisym. reflexivity. Qed.

(** C4. On a payload that holds ints under [total_events] and
    [finalized_count]: with a network round and an int under [last_round],
    the record has [round_diff = network_round - last_round], [is_active =
    (round_diff <= 10000)] and confidence "high" for a fresh round,
    "medium" for a cached one; without a network round or without a
    [last_round], and with [total_events > 0], the record has [is_active =
    False], [round_diff = None] and confidence "unknown". In both cases
    [is_ever_active] says whether [total_events] is positive. *)
Theorem parse_uptime_active_status
    (secp : string) (items : list (string * pyval)) (network_round : option Z)
    (used_cached_round : bool) (total finalized : Z) (w : World) :
  dict_get items "total_events" (PInt 0) = PInt total ->
  dict_get items "finalized_count" (PInt 0) = PInt finalized ->
  Z.abs finalized < FLOAT_INT_BOUND ->
  (forall current last,
      network_round = Some current ->
      dict_get items "last_round" PNone = PInt last ->
      exists r w',
        _parse_uptime_response secp (PDict items) network_round used_cached_round w
          = (Ok (Some r), w')
        /\ round_diff r = PInt (current - last)
        /\ is_active r = (current - last <=? 10000)
        /\ confidence r = (if used_cached_round then "medium" else "high")
        /\ is_ever_active r = (0 <? total))
  /\ (network_round = None \/ dict_get items "last_round" PNone = PNone ->
      0 < total ->
      exists r w',
        _parse_uptime_response secp (PDict items) network_round used_cached_round w
          = (Ok (Some r), w')
        /\ is_active r = false
        /\ round_diff r = PNone
        /\ confidence r = "unknown"
        /\ is_ever_active r = true).
Proof.
  intros Htotal Hfinal Hbound.
  assert (forall key n, dict_get items key (PInt 0) = PInt n ->
                        get_or_zero (PDict items) key = Ok (PInt n)) as Hcount.
  { intros key n H. unfold get_or_zero, get, or_. rewrite H. cbn [truthy].
    destruct (Z.eqb_spec n 0) as [->|_]; reflexivity. }
  apply Hcount in Htotal. apply Hcount in Hfinal. clear Hcount.
  assert (truediv (PInt finalized) (PInt total) = Ok (inject_Z finalized / inject_Z total)%Q
          \/ total <= 0) as Hdiv.
  { destruct (Z.leb_spec total 0) as [H|H]; [now right|left].
    unfold truediv. simpl.
    destruct (Z.eqb_spec total 0); [lia|].
    destruct (Z.ltb_spec (Z.abs finalized) (FLOAT_INT_BOUND * Z.abs total)); [reflexivity|].
    assert (0 < FLOAT_INT_BOUND) by reflexivity. nia. }
  assert (gt (PInt total) (PInt 0) = Ok (0 <? total)) as Hgt.
  { unfold gt. simpl. now rewrite Qltb_inject_Z. }
  split.
  - intros current last -> Hlast.
    assert (truthy (PDict items) = true) as Hdata.
    { destruct items; [discriminate Hlast|reflexivity]. }
    unfold _parse_uptime_response, bind, lift, ret.
    rewrite Hdata, Htotal, Hgt, Hfinal. cbn [negb].
    unfold get_or_zero, get, now_. rewrite Hlast.
    destruct (Z.ltb_spec 0 total) as [Hpos|Hnon].
    + destruct Hdiv as [-> |]; [|lia]. simpl.
      rewrite Qle_bool_inject_Z. eexists _, _. split; [reflexivity|]. simpl. auto.
    + simpl. rewrite Qle_bool_inject_Z. eexists _, _. split; [reflexivity|]. simpl. auto.
  - intros Hmissing Hpos.
    assert (truthy (PDict items) = true) as Hdata.
    { destruct items; [|reflexivity]. simpl in Htotal. injection Htotal. lia. }
    unfold _parse_uptime_response, bind, lift, ret.
    rewrite Hdata, Htotal, Hgt, Hfinal. cbn [negb].
    destruct Hdiv as [-> |]; [|lia].
    destruct (Z.ltb_spec 0 total) as [_|]; [|lia].
    unfold get_or_zero, get, now_.
    destruct Hmissing as [-> | ->].
    + simpl. eexists _, _. split; [reflexivity|]. simpl. auto.
    + destruct network_round; simpl; eexists _, _; (split; [reflexivity|]); simpl; auto.
Qed.

Definition sample_uptime : list (string * pyval) :=
  [ ("validator_id", PInt 7);
    ("total_events", PInt 100);
    ("finalized_count", PInt 95);
    ("timeout_count", PInt 5);
    ("last_round", PInt 145) ].

(** A client just created, in a world that answers every request with
    [answer] and whose clock is [example_clock]. *)
Definition fresh_world (answer : nat -> string -> HttpOutcome) : World := {|
  self := new_client default_config;
  env := {| clock := example_clock; http := answer; requests := 0; trace := [] |};
|}.

Definition not_found : HttpOutcome :=
  Responded {| status_code := 404; json := Some (PDict [("error", PStr "not found")]) |}.

(** The payload of [sample_uptime] without its [last_round]. *)
Definition sample_without_last_round : list (string * pyval) :=
  [ ("validator_id", PInt 7);
    ("total_events", PInt 100);
    ("finalized_count", PInt 95);
    ("timeout_count", PInt 5) ].

Lemma parse_uptime_active_status_witness :
  (exists r w',
     _parse_uptime_response "0xmaxroundtest" (PDict sample_uptime) (Some 150) false
         (fresh_world (fun _ _ => not_found))
       = (Ok (Some r), w')
     /\ round_diff r = PInt 5 /\ is_active r = true /\ confidence r = "high")
  /\ (exists r w',
        _parse_uptime_response "0xmaxroundtest" (PDict sample_uptime) (Some 150) true
            (fresh_world (fun _ _ => not_found))
          = (Ok (Some r), w')
        /\ round_diff r = PInt 5 /\ is_active r = true /\ confidence r = "medium")
  /\ (exists r w',
        _parse_uptime_response "0xmaxroundtest" (PDict sample_uptime) None false
            (fresh_world (fun _ _ => not_found))
          = (Ok (Some r), w')
        /\ is_active r = false /\ round_diff r = PNone /\ confidence r = "unknown")
  /\ (exists r w',
        _parse_uptime_response "0xmaxroundtest" (PDict sample_without_last_round) (Some 150)
            false (fresh_world (fun _ _ => not_found))
          = (Ok (Some r), w')
        /\ is_active r = false /\ round_diff r = PNone /\ confidence r = "unknown").
Proof.
  split; [|split; [|split]].
  - destruct (proj1 (parse_uptime_active_status "0xmaxroundtest" sample_uptime (Some 150)
                       false 100 95 (fresh_world (fun _ _ => not_found))
                       eq_refl eq_refl eq_refl) 150 145 eq_refl eq_refl)
      as (r & w' & E & D & A & C & _).
    exists r, w'. auto.
  - destruct (proj1 (parse_uptime_active_status "0xmaxroundtest" sample_uptime (Some 150)
                       true 100 95 (fresh_world (fun _ _ => not_found))
                       eq_refl eq_refl eq_refl) 150 145 eq_refl eq_refl)
      as (r & w' & E & D & A & C & _).
    exists r, w'. auto.
  - destruct (proj2 (parse_uptime_active_status "0xmaxroundtest" sample_uptime None
                       false 100 95 (fresh_world (fun _ _ => not_found))
                       eq_refl eq_refl eq_refl) (or_introl eq_refl) eq_refl)
      as (r & w' & E & A & D & C & _).
    exists r, w'. auto.
  - destruct (proj2 (parse_uptime_active_status "0xmaxroundtest" sample_without_last_round
                       (Some 150) false 100 95 (fresh_world (fun _ _ => not_found))
                       eq_refl eq_refl eq_refl) (or_intror eq_refl) eq_refl)
      as (r & w' & E & A & D & C & _).
    exists r, w'. auto.
Defined.

(** *** The retrying fetch *)

(** An outcome that is tried again: a status of 500 or more, or a
    transport failure. *)
Definition retryable (o : HttpOutcome) : bool :=
  match o with
  | Responded r => negb (status_code r <? 500)
  | RequestException => true
  end.

(** The outcome of the [i]-th request made from world [w] on. *)
Definition outcome_at (w : World) (url : string) (i : nat) : HttpOutcome :=
  http (env w) (i + requests (env w))%nat url.

(** [k] requests with the back-off sleeps between them, the first one
    being attempt number [attempt]. *)
Fixpoint attempts_trace (url : string) (tmo : Z) (attempt k : nat) : list Event :=
  match k with
  | O => []
  | S O => [EvGet url tmo]
  | S k' => EvGet url tmo :: EvSleep (retry_delay attempt) :: attempts_trace url tmo (S attempt) k'
  end.

(** Whether the breaker of the network lets a request through. *)
Definition breaker_admits (network : string) (w : World) : bool :=
  fst (fst (can_execute (breaker_at (lower network) (self w)) (clock (env w)))).

(** The world after the breaker has been consulted. *)
Definition after_breaker (network : string) (w : World) : World :=
  let key := lower network in
  let '(_, cb, c) := can_execute (breaker_at key (self w)) (clock (env w)) in
  {| self := with_circuit_breakers (<[key := cb]> (_circuit_breakers (self w))) (self w);
     env := with_clock c (env w) |}.

Lemma fetch_with_retry_breaker url network tmo w :
  _fetch_with_retry url network tmo w =
    if breaker_admits network w
    then retry_loop (seq 0 MAX_RETRIES) url (lower network) tmo (after_breaker network w)
    else (Ok None, after_breaker network w).
Proof.
  unfold _fetch_with_retry, _get_circuit_breaker, breaker_admits, after_breaker, bind, get_self,
    set_self, ret, breaker_can_execute, breaker_at.
  destruct (_circuit_breakers (self w) !! lower network) as [cb|] eqn:E; cbn [self env].
  - rewrite E. cbn [default from_option id].
    destruct (can_execute cb (clock (env w))) as [[allowed cb'] c']. cbn [fst negb].
    now destruct allowed.
  - cbn [_circuit_breakers with_circuit_breakers]. rewrite lookup_insert_eq. cbn [default from_option id].
    destruct (can_execute default_circuit_breaker (clock (env w))) as [[allowed cb'] c'].
    cbn [fst negb]. rewrite insert_insert_eq.
    now destruct allowed.
Qed.

(** Case analysis on the next outcome the loop looks at. *)
Ltac next_outcome :=
  match goal with
  | |- context [match http ?e ?n ?u with _ => _ end] =>
      let E := fresh "Hout" in destruct (http e n u) eqn:E
  | |- context [if status_code ?r <? 500 then _ else _] =>
      let S := fresh "Hstatus" in destruct (status_code r <? 500) eqn:S
  end.

Ltac use_outcomes :=
  repeat match goal with
         | H : http _ _ _ = _ |- _ => rewrite H
         | H : (status_code _ <? 500) = _ |- _ => rewrite H
         end.

Ltac conclude_with k :=
  exists k; cbn; use_outcomes; unfold retryable; use_outcomes;
  solve [repeat split; try lia; try reflexivity;
         now rewrite <- !app_assoc].

Lemma retry_loop_trace url key tmo w :
  let '(result, w') := retry_loop (seq 0 MAX_RETRIES) url key tmo w in
  exists k : nat,
    (1 <= k <= MAX_RETRIES)%nat
    /\ requests (env w') = (k + requests (env w))%nat
    /\ forallb retryable (map (outcome_at w url) (seq 0 (k - 1))) = true
    /\ match outcome_at w url (k - 1) with
       | Responded r =>
           result = Ok (Some r)
           /\ if status_code r <? 500
              then trace (env w') =
                     trace (env w) ++ attempts_trace url tmo 0 k ++ [EvRecordSuccess key]
              else k = MAX_RETRIES
                   /\ trace (env w') =
                        trace (env w) ++ attempts_trace url tmo 0 k ++ [EvRecordFailure key]
       | RequestException =>
           result = Ok None
           /\ k = MAX_RETRIES
           /\ trace (env w') =
                trace (env w) ++ attempts_trace url tmo 0 k ++ [EvRecordFailure key]
       end.
Proof.
  unfold outcome_at, MAX_RETRIES.
  cbn [seq retry_loop].
  unfold MAX_RETRIES, bind, requests_get, sleep, emit, ret, breaker_record_success,
    breaker_record_failure.
  cbn [env self with_trace with_clock clock http requests trace Nat.ltb Nat.leb Nat.sub].
  repeat (next_outcome; cbn [env self with_trace with_clock clock http requests trace]).
  all: first [conclude_with 1%nat | conclude_with 2%nat | conclude_with 3%nat].
Qed.

(** C7. Whatever the HTTP outcomes: if the breaker refuses, nothing is
    requested; otherwise the fetch makes [k] requests, between 1 and 3,
    all but the last of which met a status of 500 or more or a transport
    failure, with a sleep of 1 second after the first attempt and of 2
    seconds after the second, the delay after attempt number [attempt]
    being [min(1 * 2 ^ attempt, 5)]. A last response below 500 (so also a
    4xx on the first attempt) ends the fetch with a [record_success];
    [record_failure] is called exactly when the third attempt too is
    retryable. *)
Theorem fetch_with_retry_trace (url network : string) (tmo : Z) (w : World) :
  let key := lower network in
  let get := EvGet url tmo in
  (forall attempt : nat,
     retry_delay attempt = Qmin (1 * inject_Z (2 ^ Z.of_nat attempt)) 5)
  /\ let '(result, w') := _fetch_with_retry url network tmo w in
     if breaker_admits network w then
       exists k : nat,
         (1 <= k <= 3)%nat
         /\ requests (env w') = (k + requests (env w))%nat
         /\ forallb retryable (map (outcome_at w url) (seq 0 (k - 1))) = true
         /\ let attempts :=
              match k with
              | 1%nat => [get]
              | 2%nat => [get; EvSleep 1%Q; get]
              | _ => [get; EvSleep 1%Q; get; EvSleep 2%Q; get]
              end in
            match outcome_at w url (k - 1) with
            | Responded r =>
                result = Ok (Some r)
                /\ if status_code r <? 500
                   then trace (env w') = trace (env w) ++ attempts ++ [EvRecordSuccess key]
                   else k = 3%nat
                        /\ trace (env w')
                           = trace (env w) ++ attempts ++ [EvRecordFailure key]
            | RequestException =>
                result = Ok None
                /\ k = 3%nat
                /\ trace (env w') = trace (env w) ++ attempts ++ [EvRecordFailure key]
            end
     else
       result = Ok None
       /\ requests (env w') = requests (env w)
       /\ trace (env w') = trace (env w).
Proof.
  cbv zeta. split; [reflexivity|]. rewrite fetch_with_retry_breaker.
  destruct (breaker_admits network w) eqn:Hadmit.
  - pose proof (retry_loop_trace url (lower network) tmo (after_breaker network w)) as Hloop.
    destruct (retry_loop _ _ _ _ _) as [result w'].
    assert (env (after_breaker network w) = with_clock (clock (env (after_breaker network w))) (env w))
      as Henv.
    { unfold after_breaker. now destruct (can_execute _ _) as [[? ?] ?]. }
    unfold outcome_at in *. rewrite Henv in Hloop.
    destruct Hloop as (k & Hk & Hrequests & Hretried & Hlast).
    unfold MAX_RETRIES in *. exists k.
    split; [exact Hk|]. split; [exact Hrequests|]. split; [exact Hretried|].
    destruct k as [|[|[|[|k]]]]; try lia;
      cbn [attempts_trace] in Hlast;
      change (retry_delay 0) with 1%Q in Hlast;
      change (retry_delay 1) with 2%Q in Hlast;
      exact Hlast.
  - unfold after_breaker. destruct (can_execute _ _) as [[? ?] ?]. auto.
Qed.

(** The delays of the two sleeps the loop can make. *)
Lemma retry_delays : retry_delay 0 = 1%Q /\ retry_delay 1 = 2%Q.
Proof. split; reflexivity. Qed.

(** *** Inversion of the monad *)

Lemma bind_ok {A B} (m : M A) (k : A -> M B) w b w' :
  bind m k w = (Ok b, w') ->
  exists a w1, m w = (Ok a, w1) /\ k a w1 = (Ok b, w').
Proof.
  unfold bind. destruct (m w) as [[a|e] w1]; [eauto|discriminate].
Qed.

Lemma lift_ok {A} (r : result A) w a w' : lift r w = (Ok a, w') -> r = Ok a /\ w' = w.
Proof. unfold lift. intros H. injection H as -> ->. auto. Qed.

Lemma ret_ok {A} (x : A) w a w' : ret x w = (Ok a, w') -> a = x /\ w' = w.
Proof. unfold ret. intros H. injection H as -> ->. auto. Qed.

(** *** What a fetch leaves alone *)

(** Everything in the client but the circuit breakers. *)
Definition caches (c : HuginnClient) :=
  (config c, _cache c, _cache_times c, _network_rounds c, _network_round_times c,
   _network_round_ttl c).

(** A computation that returns, and touches nothing of the client but
    the breakers. *)
Definition quiet {A} (m : M A) : Prop :=
  forall w, exists a w', m w = (Ok a, w') /\ caches (self w') = caches (self w).

Lemma quiet_ret {A} (a : A) : quiet (ret a).
Proof. intros w. now exists a, w. Qed.

Lemma quiet_bind {A B} (m : M A) (k : A -> M B) :
  quiet m -> (forall a, quiet (k a)) -> quiet (bind m k).
Proof.
  intros Hm Hk w. destruct (Hm w) as (a & w1 & E1 & F1).
  destruct (Hk a w1) as (b & w2 & E2 & F2).
  exists b, w2. unfold bind. rewrite E1, E2. split; [reflexivity|congruence].
Qed.

Lemma quiet_requests_get url tmo : quiet (requests_get url tmo).
Proof. intros w. eexists _, _. split; reflexivity. Qed.

Lemma quiet_sleep d : quiet (sleep d).
Proof. intros w. eexists _, _. split; reflexivity. Qed.

Lemma quiet_record_success key : quiet (breaker_record_success key).
Proof. intros w. eexists _, _. split; reflexivity. Qed.

Lemma quiet_record_failure key : quiet (breaker_record_failure key).
Proof.
  intros w. unfold breaker_record_failure.
  destruct (record_failure _ _) as [cb c]. eexists _, _. split; reflexivity.
Qed.

Lemma quiet_can_execute key : quiet (breaker_can_execute key).
Proof.
  intros w. unfold breaker_can_execute.
  destruct (can_execute _ _) as [[allowed cb] c]. eexists _, _. split; reflexivity.
Qed.

Lemma quiet_get_circuit_breaker network : quiet (_get_circuit_breaker network).
Proof.
  intros w. unfold _get_circuit_breaker, bind, get_self, set_self, ret.
  destruct (_circuit_breakers (self w) !! lower network); eexists _, _; split; reflexivity.
Qed.

Create HintDb quiet.

#[local] Hint Resolve quiet_ret quiet_requests_get quiet_sleep quiet_record_success
  quiet_record_failure quiet_can_execute quiet_get_circuit_breaker : quiet.

Lemma quiet_retry_loop attempts url key tmo : quiet (retry_loop attempts url key tmo).
Proof.
  induction attempts as [|attempt rest IH]; cbn [retry_loop].
  - apply quiet_bind; auto with quiet.
  - apply quiet_bind; [auto with quiet|].
    intros [r|].
    + destruct (status_code r <? 500); [apply quiet_bind; auto with quiet|].
      destruct (attempt <? MAX_RETRIES - 1)%nat; apply quiet_bind; auto with quiet.
    + destruct (attempt <? MAX_RETRIES - 1)%nat; [apply quiet_bind; auto with quiet|exact IH].
Qed.

(** [_fetch_with_retry] never raises and changes no cache. *)
Lemma quiet_fetch_with_retry url network tmo : quiet (_fetch_with_retry url network tmo).
Proof.
  unfold _fetch_with_retry.
  apply quiet_bind; [auto with quiet|]. intros key.
  apply quiet_bind; [auto with quiet|]. intros allowed.
  destruct (negb allowed); [auto with quiet|apply quiet_retry_loop].
Qed.

(** *** The network round from the reference validators *)







Lemma max_round_ge others : forall first, first <= max_round first others.
Proof.
  unfold max_round. induction others as [|x rest IH]; intros first; simpl; [lia|].
  specialize (IH (Z.max first x)). lia.
Qed.


(** The world once [_get_current_network_round] has read the clock. *)
Definition after_clock_read (w : World) : World :=
  {| self := self w; env := with_clock (snd (time_time (clock (env w)))) (env w) |}.






Definition round_report (round : Z) : HttpOutcome :=
  Responded {| status_code := 200;
               json := Some (PDict [("success", PBool true);
                                    ("uptime", PDict [("last_round", PInt round)])]) |}.

(** References 1, 2 and 3 report rounds 100, 150 and 120; every other
    URL is not found. *)
Definition reference_answers (_ : nat) (url : string) : HttpOutcome :=
  if String.eqb url (uptime_url DEFAULT_TESTNET_ENDPOINT "1") then round_report 100
  else if String.eqb url (uptime_url DEFAULT_TESTNET_ENDPOINT "2") then round_report 150
  else if String.eqb url (uptime_url DEFAULT_TESTNET_ENDPOINT "3") then round_report 120
  else not_found.


(** The same client with a round of 500 cached 1000 seconds before the
    clock starts, and no reference validator found. *)
Definition stale_world : World := {|
  self := with_network_rounds (<["testnet" := 500]> ∅)
                              (<["testnet" := inject_Z 1699999000]> ∅)
                              (new_client default_config);
  env := {| clock := example_clock; http := fun _ _ => not_found; requests := 0; trace := [] |};
|}.

Example stale_round_is_returned :
  fst (_get_current_network_round "testnet" None stale_world) = Ok (Some 500, true).
Proof. vm_compute. reflexivity. Qed.

Example no_round_at_all :
  fst (_get_current_network_round "testnet" None (fresh_world (fun _ _ => not_found)))
    = Ok (None, false).
Proof. vm_compute. reflexivity. Qed.

(** Three server errors: two sleeps of 1 and 2 seconds, then a failure
    recorded; a 404 ends the fetch at once with a success recorded. *)
Example three_server_errors :
  let unavailable := Responded {| status_code := 500; json := None |} in
  trace (env (snd (_fetch_with_retry "u" "testnet" 10 (fresh_world (fun _ _ => unavailable)))))
    = [EvGet "u" 10; EvSleep 1; EvGet "u" 10; EvSleep 2; EvGet "u" 10;
       EvRecordFailure "testnet"].
Proof. vm_compute. reflexivity. Qed.

Example client_error_is_terminal :
  trace (env (snd (_fetch_with_retry "u" "testnet" 10 (fresh_world (fun _ _ => not_found)))))
    = [EvGet "u" 10; EvRecordSuccess "testnet"].
Proof. vm_compute. reflexivity. Qed.

(** *** Uptime records and the status built on them *)

(** A difference is a number, never [None]. *)
Lemma sub_not_none a b v : sub a b = Ok v -> v <> PNone.
Proof.
  unfold sub. destruct (as_number a) as [[x|x]|], (as_number b) as [[y|y]|];
    try discriminate; cbn [float_of_number];
    repeat (match goal with |- context [if ?c then _ else _] => destruct c end);
    intros H; inversion H; discriminate.
Qed.

(** A parsed record without a round difference is not active. *)
Lemma parse_uptime_no_diff secp data network_round used_cached_round w u w' :
  _parse_uptime_response secp data network_round used_cached_round w = (Ok (Some u), w') ->
  round_diff u = PNone ->
  is_active u = false.
Proof.
  unfold _parse_uptime_response.
  destruct (negb (truthy data)); [intros H; now apply ret_ok in H|].
  intros H.
  apply bind_ok in H as (total & w1 & _ & H).
  apply bind_ok in H as (ever_active & w2 & _ & H).
  apply bind_ok in H as (finalized & w3 & _ & H).
  apply bind_ok in H as (timeouts & w4 & _ & H).
  apply bind_ok in H as (percent & w5 & _ & H).
  apply bind_ok in H as (last & w6 & _ & H).
  apply bind_ok in H as ([[diff active] conf] & w7 & Hstatus & H).
  apply bind_ok in H as (id & w8 & _ & H).
  apply bind_ok in H as (name & w9 & _ & H).
  apply bind_ok in H as (height & w10 & _ & H).
  apply bind_ok in H as (since & w11 & _ & H).
  apply bind_ok in H as (fetched & w12 & _ & H).
  apply ret_ok in H as [Hu _]. injection Hu as ->. cbn [round_diff is_active].
  intros ->.
  destruct network_round as [current|].
  - destruct (negb (is_none last)).
    + apply bind_ok in Hstatus as (d & ? & Hsub & Hstatus).
      apply lift_ok in Hsub as [Hsub _].
      apply bind_ok in Hstatus as (? & ? & _ & Hstatus).
      apply ret_ok in Hstatus as [Hst _]. inversion Hst; subst.
      now apply sub_not_none in Hsub.
    + destruct ever_active; apply ret_ok in Hstatus as [Hst _]; now inversion Hst.
  - destruct ever_active; apply ret_ok in Hstatus as [Hst _]; now inversion Hst.
Qed.

(** A computation that leaves the uptime cache as it is, also when it
    raises. *)
Definition keeps_cache {A} (m : M A) : Prop :=
  forall w, _cache (self (snd (m w))) = _cache (self w).

Lemma keeps_cache_bind {A B} (m : M A) (k : A -> M B) :
  keeps_cache m -> (forall a, keeps_cache (k a)) -> keeps_cache (bind m k).
Proof.
  intros Hm Hk w. unfold bind. specialize (Hm w).
  destruct (m w) as [[a|e] w1]; [|exact Hm].
  rewrite (Hk a w1). exact Hm.
Qed.

Lemma keeps_cache_quiet {A} (m : M A) : quiet m -> keeps_cache m.
Proof.
  intros Hq w. destruct (Hq w) as (a & w' & E & F). rewrite E.
  unfold caches in F. simpl in *. congruence.
Qed.

Lemma keeps_cache_ret {A} (a : A) : keeps_cache (ret a).
Proof. now intros w. Qed.

Lemma keeps_cache_lift {A} (r : result A) : keeps_cache (lift r).
Proof. now intros w. Qed.

Lemma keeps_cache_get_self : keeps_cache get_self.
Proof. now intros w. Qed.

Lemma keeps_cache_now : keeps_cache now_.
Proof. intros w. unfold now_. now destruct (time_time _). Qed.

Lemma keeps_cache_store key round now : keeps_cache (store_network_round key round now).
Proof. now intros w. Qed.

Lemma keeps_cache_fetch url network tmo : keeps_cache (_fetch_with_retry url network tmo).
Proof. apply keeps_cache_quiet, quiet_fetch_with_retry. Qed.

Create HintDb keeps_cache.

#[local] Hint Resolve keeps_cache_ret keeps_cache_lift keeps_cache_get_self keeps_cache_now
  keeps_cache_store keeps_cache_fetch : keeps_cache.

Ltac keeps_cache_step :=
  match goal with
  | |- keeps_cache (bind _ _) => apply keeps_cache_bind; [|intros ?]
  | |- keeps_cache (match ?x with _ => _ end) => destruct x
  | |- keeps_cache (if ?b then _ else _) => destruct b
  | |- keeps_cache _ => solve [auto with keeps_cache]
  end.

Lemma keeps_cache_query_references base network ref_ids : forall acc,
  keeps_cache (query_reference_validators base network ref_ids acc).
Proof.
  induction ref_ids as [|ref_id rest IH]; intros acc; cbn [query_reference_validators];
    repeat keeps_cache_step; apply IH.
Qed.

Lemma keeps_cache_multi_validator base network key now :
  keeps_cache (multi_validator_strategy base network key now).
Proof.
  unfold multi_validator_strategy.
  apply keeps_cache_bind; [apply keeps_cache_query_references|intros ?].
  repeat keeps_cache_step.
Qed.

Lemma keeps_cache_network_round network gmonads_client :
  keeps_cache (_get_current_network_round network gmonads_client).
Proof.
  unfold _get_current_network_round, query_hinted_validator.
  repeat keeps_cache_step; apply keeps_cache_multi_validator.
Qed.

(** Every record of the cache that has no round difference is marked not
    active: the cache only ever holds parsed records. *)
Definition cache_consistent (c : HuginnClient) : Prop :=
  forall key u, _cache c !! key = Some u -> round_diff u = PNone -> is_active u = false.

Lemma cache_consistent_new_client cfg : cache_consistent (new_client cfg).
Proof. intros key u H. simpl in H. now rewrite lookup_empty in H. Qed.

Lemma fresh_uptime_cached key now c u :
  fresh_uptime key now c = Some u -> _cache c !! key = Some u.
Proof.
  unfold fresh_uptime. destruct (_cache c !! key); [|discriminate].
  destruct (Qltb _ _); congruence.
Qed.

(** What [get_validator_uptime] returns is a record of the cache it was
    called with, or a record it has just parsed. *)
Lemma uptime_from_cache_or_parse secp network gmonads_client w u w' :
  get_validator_uptime secp network gmonads_client w = (Ok (Some u), w') ->
  (exists key, _cache (self w) !! key = Some u)
  \/ (exists address data network_round used_cached_round w1 w2,
        _parse_uptime_response address data network_round used_cached_round w1
          = (Ok (Some u), w2)).
Proof.
  unfold get_validator_uptime.
  destruct secp as [address|]; [|intros H; now apply ret_ok in H].
  destruct (negb (nonempty address)); [intros H; now apply ret_ok in H|].
  intros H. apply bind_ok in H as (now & w1 & Hnow & H).
  assert (_cache (self w1) = _cache (self w)) as Hc1.
  { pose proof (keeps_cache_now w) as K. now rewrite Hnow in K. }
  apply bind_ok in H as (c & ? & Hself & H).
  injection Hself as <- <-.
  destruct (fresh_uptime _ _ _) as [cached|] eqn:Efresh.
  { apply ret_ok in H as [Hu _]. injection Hu as ->. left.
    apply fresh_uptime_cached in Efresh. rewrite Hc1 in Efresh. eauto. }
  apply bind_ok in H as ([network_round used_cached_round] & w2 & Hround & H).
  assert (_cache (self w2) = _cache (self w)) as Hc2.
  { pose proof (keeps_cache_network_round network gmonads_client w1) as K.
    rewrite Hround in K. simpl in K. congruence. }
  apply bind_ok in H as (response & w3 & Hfetch & H).
  assert (_cache (self w3) = _cache (self w)) as Hc3.
  { pose proof (keeps_cache_fetch (uptime_url (get_endpoint (config (self w1)) (Some network))
                                    address) network (timeout (config (self w1))) w2) as K.
    rewrite Hfetch in K. simpl in K. congruence. }
  assert (forall key a w4, cached_uptime key w3 = (Ok (Some a), w4) ->
                           exists key, _cache (self w) !! key = Some a) as Hcached.
  { intros key a w4 E. unfold cached_uptime, bind, get_self, ret in E.
    injection E as E _. rewrite Hc3 in E. eauto. }
  destruct response as [r|]; [|left; eapply Hcached; exact H].
  destruct (status_code r =? 429); [left; eapply Hcached; exact H|].
  destruct (400 <=? status_code r); [left; eapply Hcached; exact H|].
  destruct (json r) as [response_data|]; [|left; eapply Hcached; exact H].
  apply bind_ok in H as ([parsed|] & w4 & Hparse & H).
  - apply bind_ok in H as (? & ? & _ & H). apply ret_ok in H as [Hu _].
    injection Hu as ->. right. eauto 10.
  - now apply ret_ok in H.
Qed.

Lemma keeps_cache_parse secp data network_round used_cached_round :
  keeps_cache (_parse_uptime_response secp data network_round used_cached_round).
Proof. unfold _parse_uptime_response. repeat keeps_cache_step. Qed.

Lemma keeps_cache_cached_uptime key : keeps_cache (cached_uptime key).
Proof. now intros w. Qed.

(** [get_validator_uptime] keeps the cache consistent, whether it returns
    or raises: the one record it may add is a parsed one. *)
Lemma cache_consistent_preserved secp network gmonads_client w :
  cache_consistent (self w) ->
  cache_consistent (self (snd (get_validator_uptime secp network gmonads_client w))).
Proof.
  intros Hcons.
  assert (forall w', _cache (self w') = _cache (self w) -> cache_consistent (self w')) as Hsame.
  { intros w' E key u. rewrite E. apply Hcons. }
  unfold get_validator_uptime.
  destruct secp as [address|]; [|now apply Hsame].
  destruct (negb (nonempty address)); [now apply Hsame|].
  unfold bind at 1. pose proof (keeps_cache_now w) as K1.
  destruct (now_ w) as [[now|e] w1]; cbn [snd] in *; [|now apply Hsame].
  unfold bind at 1. unfold get_self at 1.
  destruct (fresh_uptime _ _ _); [now apply Hsame|].
  unfold bind at 1.
  pose proof (keeps_cache_network_round network gmonads_client w1) as K2.
  destruct (_get_current_network_round network gmonads_client w1)
    as [[[network_round used_cached_round]|e] w2]; cbn [snd] in *;
    [|apply Hsame; congruence].
  unfold bind at 1.
  match goal with
  | |- context [_fetch_with_retry ?u ?n ?t w2] =>
      pose proof (keeps_cache_fetch u n t w2) as K3;
      destruct (_fetch_with_retry u n t w2) as [[response|e] w3]
  end; cbn [snd] in *; [|apply Hsame; congruence].
  assert (_cache (self w3) = _cache (self w)) as K by congruence.
  assert (forall key, cache_consistent (self (snd (cached_uptime key w3)))) as Hcached.
  { intros key. apply Hsame. now rewrite (keeps_cache_cached_uptime key w3). }
  destruct response as [r|]; [|apply Hcached].
  destruct (status_code r =? 429); [apply Hcached|].
  destruct (400 <=? status_code r); [apply Hcached|].
  destruct (json r) as [response_data|]; [|apply Hcached].
  unfold bind at 1.
  match goal with
  | |- context [_parse_uptime_response ?a ?d ?n ?c w3] =>
      pose proof (keeps_cache_parse a d n c w3) as K4;
      destruct (_parse_uptime_response a d n c w3) as [[[u|]|e] w4] eqn:Hparse
  end; cbn [snd] in *; try (apply Hsame; unfold ret; cbn [snd]; congruence).
  unfold bind, set_self, ret. cbn [snd]. unfold cache_consistent.
  cbn [self _cache with_cache].
  intros key v. rewrite lookup_insert. case_decide as Hkey.
  - intros Hv. injection Hv as <-. apply (parse_uptime_no_diff _ _ _ _ _ _ _ Hparse).
  - rewrite K4, K. apply Hcons.
Qed.

(** C10. When the uptime record fetched for a validator says
    [is_ever_active] and has no [round_diff], [get_active_set_status]
    answers active, with the message "Active (no round comparison
    available)" and no round difference, although the [is_active] field of
    that very record is false. *)
Theorem active_set_status_without_round
    (secp : option string) (network : string) (w : World) (u : ValidatorUptime) (w' : World) :
  cache_consistent (self w) ->
  get_validator_uptime secp network None w = (Ok (Some u), w') ->
  is_ever_active u = true ->
  round_diff u = PNone ->
  get_active_set_status secp network w = (Ok (Some true, ActiveNoComparison, PNone), w')
  /\ message_format ActiveNoComparison = "Active (no round comparison available)"
  /\ is_active u = false.
Proof.
  intros Hcache Huptime Hever Hdiff. split; [|split; [reflexivity|]].
  - unfold get_active_set_status, bind. rewrite Huptime, Hever, Hdiff. reflexivity.
  - destruct (uptime_from_cache_or_parse _ _ _ _ _ _ Huptime)
      as [[key Hkey]|(? & ? & ? & ? & ? & ? & Hparse)].
    + now apply (Hcache key).
    + now apply (parse_uptime_no_diff _ _ _ _ _ _ _ Hparse).
Qed.

(** No reference validator answers; the validator itself has 100 events
    and a last round. *)
Definition answers_without_round (_ : nat) (url : string) : HttpOutcome :=
  if String.eqb url (uptime_url DEFAULT_TESTNET_ENDPOINT "0xunknownstatus")
  then Responded {| status_code := 200; json := Some (PDict sample_uptime) |}
  else not_found.

Lemma active_set_status_without_round_witness :
  exists w',
    get_active_set_status (Some "0xunknownstatus") "testnet" (fresh_world answers_without_round)
      = (Ok (Some true, ActiveNoComparison, PNone), w')
    /\ (is_active <$> _cache (self w') !! "testnet:0xunknownstatus") = Some false.
Proof.
  eassert (get_validator_uptime (Some "0xunknownstatus") "testnet" None
             (fresh_world answers_without_round) = (Ok (Some _), _)) as Huptime
    by (vm_compute; reflexivity).
  destruct (active_set_status_without_round
              (Some "0xunknownstatus") "testnet" (fresh_world answers_without_round) _ _
              (cache_consistent_new_client default_config) Huptime eq_refl eq_refl)
    as (Hstatus & _ & _).
  eexists. split; [exact Hstatus|]. vm_compute. reflexivity.
Defined.

(** *** A payload of an unexpected shape *)

(** The reference validators are not found; the validator's own query is
    answered 200 with [body]. *)
Definition answers_with_body (body : pyval) (_ : nat) (url : string) : HttpOutcome :=
  if String.eqb url (uptime_url DEFAULT_TESTNET_ENDPOINT "0xabc")
  then Responded {| status_code := 200; json := Some body |}
  else not_found.

(** C1 (fails on the code). A 200 response whose JSON body is a non-empty
    list makes [get_validator_uptime] raise [AttributeError], and one
    whose [total_events] is a string makes it raise [TypeError]:
    [_parse_uptime_response] is reached with the payload and nothing
    catches what it raises. *)
Theorem get_validator_uptime_raises :
  fst (get_validator_uptime (Some "0xabc") "testnet" None
         (fresh_world (answers_with_body (PList [PInt 1]))))
    = Raise AttributeError
  /\ fst (get_validator_uptime (Some "0xabc") "testnet" None
            (fresh_world (answers_with_body
               (PDict [("uptime", PDict [("total_events", PStr "100")])]))))
       = Raise TypeError.
Proof. split; vm_compute; reflexivity. Qed.

End HuginnProofs.

(* ===================================================================== *)
(** * Further properties                                                 *)
(* ===================================================================== *)

(** ** The circuit breaker over any sequence of calls *)

Module CircuitBreakerSequences.
Import Py Huginn.

Inductive BreakerCall :=
| CanExecute
| RecordSuccess
| RecordFailure.

Definition call (op : BreakerCall) (cb : CircuitBreaker) (c : Clock) : CircuitBreaker * Clock :=
  match op with
  | CanExecute => let '(_, cb', c') := can_execute cb c in (cb', c')
  | RecordSuccess => (record_success cb, c)
  | RecordFailure => record_failure cb c
  end.

Fixpoint calls (ops : list BreakerCall) (cb : CircuitBreaker) (c : Clock)
    : CircuitBreaker * Clock :=
  match ops with
  | [] => (cb, c)
  | op :: rest => let '(cb', c') := call op cb c in calls rest cb' c'
  end.

(** A breaker that is not closed has reached its threshold. *)
Definition tripped (cb : CircuitBreaker) : Prop :=
  state cb <> CLOSED -> failure_threshold cb <= failure_count cb.

Lemma tripped_new threshold recovery : tripped (new_circuit_breaker threshold recovery).
Proof. intros H. now contradiction H. Qed.

Lemma tripped_call op cb c : tripped cb -> tripped (fst (call op cb c)).
Proof.
  unfold tripped. intros Hcb. destruct op; simpl.
  - unfold can_execute. destruct (state cb) eqn:Es; simpl; try (rewrite Es; exact Hcb).
    destruct (truthy_time _); simpl; [|rewrite Es; exact Hcb].
    destruct (Qle_bool _ _); simpl; [|rewrite Es; exact Hcb].
    intros _. apply Hcb. discriminate.
  - intros H. now contradiction H.
  - destruct (Z.leb_spec (failure_threshold cb) (failure_count cb + 1)) as [Hle|Hlt];
      [intros _; lia|].
    intros Hopen. specialize (Hcb Hopen). lia.
Qed.

Lemma tripped_calls ops : forall cb c, tripped cb -> tripped (fst (calls ops cb c)).
Proof.
  induction ops as [|op rest IH]; intros cb c Hcb; simpl; [exact Hcb|].
  pose proof (tripped_call op cb c Hcb) as Hstep.
  destruct (call op cb c) as [cb' c']. now apply IH.
Qed.

(** X1. Whatever calls a breaker has seen since it was created, a failure
    recorded while it is HALF_OPEN opens it again: the failure count was
    never reset on the way from OPEN to HALF_OPEN. *)
Theorem half_open_failure_reopens
    (threshold recovery : Z) (ops : list BreakerCall) (c c' : Clock) :
  let cb := fst (calls ops (new_circuit_breaker threshold recovery) c) in
  state cb = HALF_OPEN ->
  state (fst (record_failure cb c')) = OPEN.
Proof.
  intros cb Hhalf.
  pose proof (tripped_calls ops _ c (tripped_new threshold recovery)) as Htrip.
  fold cb in Htrip. unfold tripped in Htrip. rewrite Hhalf in Htrip.
  simpl. destruct (Z.leb_spec (failure_threshold cb) (failure_count cb + 1)); [reflexivity|].
  assert (failure_threshold cb <= failure_count cb) by (apply Htrip; discriminate). lia.
Qed.

Lemma half_open_failure_reopens_witness :
  state (fst (calls [RecordFailure; RecordFailure; CanExecute]
                    (new_circuit_breaker 2 0) example_clock)) = HALF_OPEN
  /\ state (fst (record_failure
                   (fst (calls [RecordFailure; RecordFailure; CanExecute]
                               (new_circuit_breaker 2 0) example_clock))
                   example_clock)) = OPEN.
Proof.
  split; [reflexivity|].
  apply (half_open_failure_reopens 2 0 [RecordFailure; RecordFailure; CanExecute]
           example_clock example_clock).
  reflexivity.
Defined.

Lemma failures_below_threshold (k : nat) : forall cb c,
  state cb = CLOSED ->
  failure_count cb + Z.of_nat k < failure_threshold cb ->
  let cb' := fst (record_failures k cb c) in
  state cb' = CLOSED
  /\ failure_count cb' = failure_count cb + Z.of_nat k
  /\ failure_threshold cb' = failure_threshold cb.
Proof.
  induction k as [|k IH]; intros cb c Hclosed Hbelow.
  - simpl. repeat split; try assumption; lia.
  - change (record_failures (S k) cb c)
      with (record_failures k (fst (record_failure cb c)) (snd (record_failure cb c))).
    assert (state (fst (record_failure cb c)) = CLOSED) as Hc1.
    { simpl. destruct (Z.leb_spec (failure_threshold cb) (failure_count cb + 1)); [lia|].
      exact Hclosed. }
    destruct (IH (fst (record_failure cb c)) (snd (record_failure cb c)) Hc1) as (H1 & H2 & H3).
    { simpl. lia. }
    cbv zeta. rewrite H1, H2, H3. simpl. repeat split; lia.
Qed.

(** X2. A success wipes the failures out: after [record_success], fewer
    failures than the threshold leave the breaker CLOSED, however many
    failures came before the success. *)
Theorem success_resets_failures (cb : CircuitBreaker) (c : Clock) (k : nat) :
  Z.of_nat k < failure_threshold cb ->
  let cb' := fst (record_failures k (record_success cb) c) in
  state cb' = CLOSED
  /\ failure_count cb' = Z.of_nat k
  /\ fst (fst (can_execute cb' c)) = true.
Proof.
  intros Hk.
  destruct (failures_below_threshold k (record_success cb) c) as (H1 & H2 & _).
  - reflexivity.
  - simpl. lia.
  - cbv zeta. rewrite H2. split; [exact H1|]. split; [reflexivity|].
    unfold can_execute. now rewrite H1.
Qed.

Lemma success_resets_failures_witness :
  let opened := fst (record_failures 5 default_circuit_breaker example_clock) in
  state opened = OPEN
  /\ state (fst (record_failures 4 (record_success opened) example_clock)) = CLOSED.
Proof.
  split; [reflexivity|].
  apply (success_resets_failures
           (fst (record_failures 5 default_circuit_breaker example_clock)) example_clock 4).
  reflexivity.
Defined.

End CircuitBreakerSequences.

(** ** What a fetch touches *)

Module FetchProperties.
Import Py Huginn HuginnProofs.
Local Open Scope huginn_scope.

(** From [w] to [w'] nothing changed in the client but the breaker under
    [key], and the oracles are the same. *)
Definition only_breaker (key : string) (w w' : World) : Prop :=
  caches (self w') = caches (self w)
  /\ (forall other, other <> key ->
        _circuit_breakers (self w') !! other = _circuit_breakers (self w) !! other)
  /\ http (env w') = http (env w)
  /\ readings (clock (env w')) = readings (clock (env w)).

Lemma only_breaker_refl key w : only_breaker key w w.
Proof. repeat split. Qed.

Lemma only_breaker_trans key w1 w2 w3 :
  only_breaker key w1 w2 -> only_breaker key w2 w3 -> only_breaker key w1 w3.
Proof.
  intros (A1 & B1 & C1 & D1) (A2 & B2 & C2 & D2). repeat split; try congruence.
  intros other Hother. rewrite B2, B1; auto.
Qed.

(** A computation that returns and stays within [only_breaker]. *)
Definition tame {A} (key : string) (m : M A) : Prop :=
  forall w, exists a w', m w = (Ok a, w') /\ only_breaker key w w'.

Lemma tame_ret {A} key (a : A) : tame key (ret a).
Proof. intros w. exists a, w. split; [reflexivity|apply only_breaker_refl]. Qed.

Lemma tame_bind {A B} key (m : M A) (k : A -> M B) :
  tame key m -> (forall a, tame key (k a)) -> tame key (bind m k).
Proof.
  intros Hm Hk w. destruct (Hm w) as (a & w1 & E1 & F1).
  destruct (Hk a w1) as (b & w2 & E2 & F2).
  exists b, w2. unfold bind. rewrite E1, E2. split; [reflexivity|].
  eapply only_breaker_trans; eassumption.
Qed.

Lemma tame_requests_get key url tmo : tame key (requests_get url tmo).
Proof. intros w. eexists _, _. split; [reflexivity|]. repeat split. Qed.

Lemma tame_sleep key d : tame key (sleep d).
Proof. intros w. eexists _, _. split; [reflexivity|]. repeat split. Qed.

Lemma tame_insert key (cb : CircuitBreaker) (w : World) e :
  readings (clock e) = readings (clock (env w)) ->
  http e = http (env w) ->
  only_breaker key w
    {| self := with_circuit_breakers (<[key := cb]> (_circuit_breakers (self w))) (self w);
       env := e |}.
Proof.
  intros Hr Hh. repeat split; try assumption.
  intros other Hother. simpl. now rewrite lookup_insert_ne.
Qed.

Lemma tame_record_success key : tame key (breaker_record_success key).
Proof. intros w. eexists _, _. split; [reflexivity|]. now apply tame_insert. Qed.

Lemma tame_record_failure key : tame key (breaker_record_failure key).
Proof.
  intros w. unfold breaker_record_failure.
  eexists _, _. split; [reflexivity|]. now apply tame_insert.
Qed.

Lemma tame_can_execute key : tame key (breaker_can_execute key).
Proof.
  intros w. unfold breaker_can_execute.
  destruct (can_execute _ _) as [[allowed cb] c] eqn:E.
  eexists _, _. split; [reflexivity|]. apply tame_insert; [|reflexivity].
  unfold can_execute in E.
  destruct (state _); try (injection E as _ _ <-; reflexivity).
  destruct (truthy_time _); [|injection E as _ _ <-; reflexivity].
  simpl in E. destruct (Qle_bool _ _); injection E as _ _ <-; reflexivity.
Qed.

Lemma tame_retry_loop attempts url key tmo : tame key (retry_loop attempts url key tmo).
Proof.
  induction attempts as [|attempt rest IH]; cbn [retry_loop].
  - apply tame_bind; [apply tame_record_failure|intros; apply tame_ret].
  - apply tame_bind; [apply tame_requests_get|].
    intros [r|].
    + destruct (status_code r <? 500).
      { apply tame_bind; [apply tame_record_success|intros; apply tame_ret]. }
      destruct (attempt <? MAX_RETRIES - 1)%nat.
      * apply tame_bind; [apply tame_sleep|intros; exact IH].
      * apply tame_bind; [apply tame_record_failure|intros; apply tame_ret].
    + destruct (attempt <? MAX_RETRIES - 1)%nat; [|exact IH].
      apply tame_bind; [apply tame_sleep|intros; exact IH].
Qed.

(** X3. [_fetch_with_retry] never raises, whatever the outcomes of its
    requests, and all it changes in the client is the circuit breaker of
    the network it was called for: the caches, the configuration and the
    breakers of the other networks are as before. *)
Theorem fetch_with_retry_frame (url network : string) (tmo : Z) (w : World) :
  exists response w',
    _fetch_with_retry url network tmo w = (Ok response, w')
    /\ caches (self w') = caches (self w)
    /\ forall other, other <> lower network ->
         _circuit_breakers (self w') !! other = _circuit_breakers (self w) !! other.
Proof.
  rewrite fetch_with_retry_breaker.
  assert (only_breaker (lower network) w (after_breaker network w)) as Hbreaker.
  { destruct (tame_can_execute (lower network) w) as (a & w1 & E & F).
    unfold breaker_can_execute in E. unfold after_breaker.
    destruct (can_execute _ _) as [[allowed cb] c]. now injection E as _ <-. }
  destruct (breaker_admits network w).
  - destruct (tame_retry_loop (seq 0 MAX_RETRIES) url (lower network) tmo
                (after_breaker network w)) as (r & w' & E & F).
    exists r, w'. split; [exact E|].
    destruct (only_breaker_trans _ _ _ _ Hbreaker F) as (A & B & _). auto.
  - exists None, (after_breaker network w). split; [reflexivity|].
    destruct Hbreaker as (A & B & _). auto.
Qed.

(** *** Requests that all fail *)

(** The world answers every request with a status of 500 or more, or
    not at all. *)
Definition always_failing (w : World) : Prop :=
  forall n url, retryable (http (env w) n url) = true.

Fixpoint fetch_each (urls : list string) (network : string) (tmo : Z) (w : World) : World :=
  match urls with
  | [] => w
  | url :: rest => fetch_each rest network tmo (snd (_fetch_with_retry url network tmo w))
  end.

Lemma breaker_at_insert key cb c :
  breaker_at key (with_circuit_breakers (<[key := cb]> (_circuit_breakers c)) c) = cb.
Proof.
  unfold breaker_at. cbn [_circuit_breakers with_circuit_breakers].
  now rewrite lookup_insert_eq.
Qed.

Lemma retry_loop_all_fail url key tmo w :
  always_failing w ->
  let w' := snd (retry_loop (seq 0 MAX_RETRIES) url key tmo w) in
  breaker_at key (self w') = fst (record_failure (breaker_at key (self w)) (clock (env w)))
  /\ requests (env w') = (3 + requests (env w))%nat
  /\ http (env w') = http (env w).
Proof.
  intros Hfail. unfold MAX_RETRIES.
  cbn [seq retry_loop].
  unfold MAX_RETRIES, bind, requests_get, sleep, emit, ret, breaker_record_success,
    breaker_record_failure.
  cbn [env self with_trace with_clock clock http requests trace Nat.ltb Nat.leb Nat.sub].
  repeat (next_outcome; cbn [env self with_trace with_clock clock http requests trace]).
  all: try (exfalso;
            match goal with
            | H : http _ ?n _ = Responded ?r, S : (status_code ?r <? 500) = true |- _ =>
                specialize (Hfail n url); rewrite H in Hfail; simpl in Hfail;
                rewrite S in Hfail; discriminate
            end).
  all: unfold breaker_at; destruct (record_failure _ _) as [cbf cf];
    cbn [snd fst self env requests http trace clock with_trace with_clock
         with_circuit_breakers _circuit_breakers];
    rewrite lookup_insert_eq; repeat split.
Qed.

Lemma fetch_fails_once url network tmo w :
  always_failing w ->
  state (breaker_at (lower network) (self w)) = CLOSED ->
  let w' := snd (_fetch_with_retry url network tmo w) in
  breaker_at (lower network) (self w')
    = fst (record_failure (breaker_at (lower network) (self w)) (clock (env w)))
  /\ requests (env w') = (3 + requests (env w))%nat
  /\ always_failing w'.
Proof.
  intros Hfail Hclosed. cbv zeta. rewrite fetch_with_retry_breaker.
  unfold breaker_admits, after_breaker, can_execute. rewrite Hclosed. cbn [fst].
  match goal with
  | |- context [retry_loop ?a url ?k tmo ?w0] =>
      pose proof (retry_loop_all_fail url k tmo w0) as Hloop
  end.
  cbv zeta in Hloop. destruct Hloop as (Hcb & Hreq & Hhttp); [exact Hfail|].
  rewrite Hcb, Hreq. split; [|split].
  - cbn [self env with_clock clock]. now rewrite breaker_at_insert.
  - reflexivity.
  - intros n u. rewrite Hhttp. apply Hfail.
Qed.

Lemma fetch_each_below_threshold urls network tmo : forall w,
  always_failing w ->
  let cb := breaker_at (lower network) (self w) in
  state cb = CLOSED ->
  failure_count cb + Z.of_nat (length urls) < failure_threshold cb ->
  let w' := fetch_each urls network tmo w in
  let cb' := breaker_at (lower network) (self w') in
  state cb' = CLOSED
  /\ failure_count cb' = failure_count cb + Z.of_nat (length urls)
  /\ failure_threshold cb' = failure_threshold cb
  /\ requests (env w') = (3 * length urls + requests (env w))%nat
  /\ always_failing w'.
Proof.
  induction urls as [|url rest IH]; intros w Hfail cb Hclosed Hbelow.
  - subst cb. simpl. repeat split; try assumption; lia.
  - cbn [fetch_each]. cbn [length] in Hbelow.
    destruct (fetch_fails_once url network tmo w Hfail Hclosed) as (Hcb & Hreq & Hfail').
    set (w1 := snd (_fetch_with_retry url network tmo w)) in *.
    assert (state (breaker_at (lower network) (self w1)) = CLOSED) as Hc1.
    { rewrite Hcb. simpl. fold cb.
      destruct (Z.leb_spec (failure_threshold cb) (failure_count cb + 1)); [lia|exact Hclosed]. }
    destruct (IH w1 Hfail' Hc1) as (H1 & H2 & H3 & H4 & H5).
    { rewrite Hcb. simpl. fold cb. lia. }
    cbv zeta. rewrite H1, H2, H3, H4, Hcb, Hreq. simpl. fold cb.
    repeat split; try lia. exact H5.
Qed.

(** X4. On a client that has no breaker yet for the network, and while
    every request fails, five fetches in a row make fifteen requests and
    leave the breaker of the network OPEN with a failure count of 5: one
    failure is counted per exhausted fetch, not per request. *)
Theorem five_exhausted_fetches_open (urls : list string) (network : string) (tmo : Z)
    (w : World) :
  _circuit_breakers (self w) !! lower network = None ->
  always_failing w ->
  length urls = 5%nat ->
  let w' := fetch_each urls network tmo w in
  state (breaker_at (lower network) (self w')) = OPEN
  /\ failure_count (breaker_at (lower network) (self w')) = 5
  /\ requests (env w') = (15 + requests (env w))%nat.
Proof.
  intros Hnone Hfail Hlen.
  assert (breaker_at (lower network) (self w) = default_circuit_breaker) as Hcb.
  { unfold breaker_at. now rewrite Hnone. }
  destruct (rev urls) as [|last init] eqn:Erev.
  { apply (f_equal (@length string)) in Erev. rewrite length_rev in Erev. simpl in Erev. lia. }
  assert (urls = rev init ++ [last]) as ->.
  { rewrite <- (rev_involutive urls), Erev. reflexivity. }
  rewrite length_app in Hlen. simpl in Hlen.
  assert (forall l w0, fetch_each (l ++ [last]) network tmo w0
                       = snd (_fetch_with_retry last network tmo (fetch_each l network tmo w0)))
    as Hsnoc.
  { induction l as [|x l IHl]; intros w0; simpl; [reflexivity|apply IHl]. }
  cbv zeta. rewrite Hsnoc.
  destruct (fetch_each_below_threshold (rev init) network tmo w Hfail)
    as (H1 & H2 & H3 & H4 & H5).
  { now rewrite Hcb. }
  { rewrite Hcb. simpl. unfold CIRCUIT_BREAKER_FAILURE_THRESHOLD. lia. }
  destruct (fetch_fails_once last network tmo _ H5 H1) as (Hlast & Hreq & _).
  rewrite Hlast, Hreq, H4. simpl. rewrite H2, H3, Hcb. simpl.
  unfold CIRCUIT_BREAKER_FAILURE_THRESHOLD.
  replace (Z.of_nat (length (rev init))) with 4 by lia.
  repeat split; lia.
Qed.

Lemma five_exhausted_fetches_open_witness :
  let unavailable := Responded {| status_code := 503; json := None |} in
  let w' := fetch_each ["a"; "b"; "c"; "d"; "e"] "testnet" 10
                       (fresh_world (fun _ _ => unavailable)) in
  state (breaker_at "testnet" (self w')) = OPEN
  /\ failure_count (breaker_at "testnet" (self w')) = 5
  /\ requests (env w') = 15%nat.
Proof.
  apply (five_exhausted_fetches_open ["a"; "b"; "c"; "d"; "e"] "testnet" 10
           (fresh_world (fun _ _ => Responded {| status_code := 503; json := None |})));
    [reflexivity| intros n url; reflexivity | reflexivity].
Defined.

End FetchProperties.

(** ** An open breaker *)

Module OpenBreaker.
Import Py Huginn HuginnProofs FetchProperties.
Local Open Scope huginn_scope.

(** The breaker is OPEN and the recovery time has not passed at any
    reading the clock gives from now on. *)
Definition refuses (cb : CircuitBreaker) (c : Clock) : Prop :=
  state cb = OPEN
  /\ match truthy_time (last_failure_time cb) with
     | None => True
     | Some last =>
         forall i, (ticks c <= i)%nat ->
           Qle_bool (inject_Z (recovery_time cb)) (readings c i - last) = false
     end.

Definition refusing (key : string) (w : World) : Prop :=
  refuses (breaker_at key (self w)) (clock (env w)).

(** From [w] to [w'] the breaker went on refusing and nothing was
    requested, sent or cached. *)
Definition still (key : string) (w w' : World) : Prop :=
  refusing key w'
  /\ caches (self w') = caches (self w)
  /\ requests (env w') = requests (env w)
  /\ trace (env w') = trace (env w).

(** Under a refusing breaker the computation returns a value in [P] and
    stays [still]. *)
Definition muted {A} (key : string) (m : M A) (P : A -> Prop) : Prop :=
  forall w, refusing key w -> exists a w', m w = (Ok a, w') /\ P a /\ still key w w'.

Lemma still_trans key w1 w2 w3 : still key w1 w2 -> still key w2 w3 -> still key w1 w3.
Proof.
  intros (A1 & B1 & C1 & D1) (A2 & B2 & C2 & D2).
  split; [exact A2|]. repeat split; congruence.
Qed.

Lemma muted_ret {A} key (a : A) (P : A -> Prop) : P a -> muted key (ret a) P.
Proof.
  intros HP w Hw. exists a, w. split; [reflexivity|]. split; [exact HP|].
  split; [exact Hw|]. repeat split.
Qed.

Lemma muted_bind {A B} key (m : M A) (k : A -> M B) (P : A -> Prop) (Q : B -> Prop) :
  muted key m P -> (forall a, P a -> muted key (k a) Q) -> muted key (bind m k) Q.
Proof.
  intros Hm Hk w Hw. destruct (Hm w Hw) as (a & w1 & E1 & Pa & S1).
  destruct (Hk a Pa w1 (proj1 S1)) as (b & w2 & E2 & Qb & S2).
  exists b, w2. unfold bind. rewrite E1, E2. split; [reflexivity|]. split; [exact Qb|].
  eapply still_trans; eassumption.
Qed.

Lemma muted_weaken {A} key (m : M A) (P Q : A -> Prop) :
  (forall a, P a -> Q a) -> muted key m P -> muted key m Q.
Proof.
  intros HPQ Hm w Hw. destruct (Hm w Hw) as (a & w' & E & Pa & S). eauto 6.
Qed.

Lemma refuses_later cb c c' :
  readings c' = readings c -> (ticks c <= ticks c')%nat -> refuses cb c -> refuses cb c'.
Proof.
  intros Hr Ht [Hopen Hlast]. split; [exact Hopen|].
  destruct (truthy_time _); [|exact I].
  intros i Hi. rewrite Hr. apply Hlast. lia.
Qed.

Lemma muted_get_self key : muted key get_self (fun _ => True).
Proof.
  intros w Hw. exists (self w), w. split; [reflexivity|]. split; [exact I|].
  split; [exact Hw|]. repeat split.
Qed.

Lemma muted_now key : muted key now_ (fun _ => True).
Proof.
  intros w Hw. unfold now_, time_time. eexists _, _. split; [reflexivity|].
  split; [exact I|]. repeat split; try reflexivity.
  - apply Hw.
  - destruct Hw as [_ Hlast]. simpl. unfold breaker_at in *. simpl.
    destruct (truthy_time _); [|exact I]. intros i Hi. apply Hlast. lia.
Qed.

(** A refusing breaker turns the fetch away: no response, no request. *)
Lemma muted_fetch url network tmo :
  muted (lower network) (_fetch_with_retry url network tmo) (fun r => r = None).
Proof.
  intros w Hw. rewrite fetch_with_retry_breaker.
  unfold breaker_admits, after_breaker.
  destruct Hw as [Hopen Hlast]. unfold can_execute. rewrite Hopen.
  destruct (truthy_time _) as [last|] eqn:Et.
  - cbn [time_time]. rewrite (Hlast _ (Nat.le_refl _)). cbn [fst].
    eexists _, _. split; [reflexivity|]. split; [reflexivity|].
    repeat split; try reflexivity; cbn [self env with_clock clock];
      rewrite breaker_at_insert; [exact Hopen|].
    rewrite Et. intros i Hi. apply Hlast. simpl in Hi. lia.
  - cbn [fst].
    eexists _, _. split; [reflexivity|]. split; [reflexivity|].
    repeat split; try reflexivity; cbn [self env with_clock clock];
      rewrite breaker_at_insert; [exact Hopen|].
    now rewrite Et.
Qed.

Lemma muted_query_references base network ref_ids : forall acc,
  muted (lower network) (query_reference_validators base network ref_ids acc)
        (fun rounds => rounds = acc).
Proof.
  induction ref_ids as [|ref_id rest IH]; intros acc; cbn [query_reference_validators].
  - now apply muted_ret.
  - eapply muted_bind; [apply muted_get_self|]. intros c _.
    eapply muted_bind; [apply muted_fetch|]. intros r ->. apply IH.
Qed.

Lemma muted_multi_validator base network now :
  muted (lower network) (multi_validator_strategy base network (lower network) now)
        (fun _ => True).
Proof.
  unfold multi_validator_strategy.
  eapply muted_bind; [apply muted_query_references|]. intros rounds ->.
  eapply muted_bind; [apply muted_get_self|]. intros c _. now apply muted_ret.
Qed.

Lemma muted_network_round network gmonads_client :
  muted (lower network) (_get_current_network_round network gmonads_client) (fun _ => True).
Proof.
  unfold _get_current_network_round.
  eapply muted_bind; [apply muted_now|]. intros now _.
  eapply muted_bind; [apply muted_get_self|]. intros c _.
  destruct (fresh_network_round _ _ _); [now apply muted_ret|].
  destruct (_get_active_validator_id_via_gmonads _ _) as [id|];
    [|apply muted_multi_validator].
  eapply muted_bind with (P := fun hinted => hinted = None).
  - unfold query_hinted_validator.
    eapply muted_bind; [apply muted_get_self|]. intros c' _.
    eapply muted_bind; [apply muted_fetch|]. intros r ->. now apply muted_ret.
  - intros hinted ->. apply muted_multi_validator.
Qed.

(** X5. While the circuit breaker of the network refuses, a call of
    [get_validator_uptime] without a gmonads client, which is how
    [is_validator_active] and [get_active_set_status] call it, makes no
    request and no sleep at all, neither for the network round nor for
    the validator, and returns what the cache holds for the validator,
    fresh or stale: the cached record, or [None] when there is none. *)
Theorem open_breaker_serves_cache (secp network : string) (w : World) :
  secp <> "" ->
  refusing (lower network) w ->
  exists w',
    get_validator_uptime (Some secp) network None w
      = (Ok (_cache (self w) !! cache_key_of network secp), w')
    /\ requests (env w') = requests (env w)
    /\ trace (env w') = trace (env w)
    /\ caches (self w') = caches (self w).
Proof.
  intros Hsecp Hw. unfold get_validator_uptime.
  assert (nonempty secp = true) as ->.
  { unfold nonempty. destruct (String.eqb_spec secp ""); [contradiction|reflexivity]. }
  cbn [negb].
  destruct (muted_now (lower network) w Hw) as (now & w1 & E1 & _ & S1).
  unfold bind at 1. rewrite E1. unfold bind at 1. unfold get_self at 1.
  assert (_cache (self w1) = _cache (self w)) as Hc1.
  { destruct S1 as (_ & Hc & _). unfold caches in Hc. simpl in Hc. congruence. }
  destruct (fresh_uptime _ _ _) as [u|] eqn:Efresh.
  { apply fresh_uptime_cached in Efresh. rewrite Hc1 in Efresh. rewrite Efresh.
    exists w1. destruct S1 as (_ & A & B & C). auto. }
  destruct (muted_network_round network None w1 (proj1 S1))
    as ([network_round used] & w2 & E2 & _ & S2).
  unfold bind at 1. rewrite E2.
  match goal with
  | |- context [_fetch_with_retry ?u network ?t] =>
      destruct (muted_fetch u network t w2 (proj1 S2)) as (r & w3 & E3 & -> & S3)
  end.
  unfold bind at 1. rewrite E3.
  pose proof (still_trans _ _ _ _ S1 (still_trans _ _ _ _ S2 S3)) as (_ & A & B & C).
  exists w3. unfold cached_uptime, bind, get_self, ret.
  assert (_cache (self w3) = _cache (self w)) as ->.
  { unfold caches in A. simpl in A. congruence. }
  auto.
Qed.

(** A breaker opened at 1700000000 and a clock stopped 30 seconds later;
    the cache holds one record. *)
Definition cached_record : ValidatorUptime := {|
  validator_id := PInt 7;
  validator_name := PNone;
  secp_address := "0xabc";
  is_active := true;
  is_ever_active := true;
  uptime_percent := 95;
  finalized_count := PInt 95;
  timeout_count := PInt 5;
  total_events := PInt 100;
  last_round := PInt 145;
  last_block_height := PNone;
  since_utc := PNone;
  fetched_at := 1699990000;
  round_diff := PInt 5;
  current_network_round := Some 150;
  confidence := "high";
|}.

Definition open_world : World := {|
  self := with_circuit_breakers
            (<["testnet" := {| failure_threshold := 5; recovery_time := 60; failure_count := 5;
                               state := OPEN; last_failure_time := Some 1700000000%Q |}]> ∅)
            (with_cache (<["testnet:0xabc" := cached_record]> ∅)
                        (<["testnet:0xabc" := 1699990000%Q]> ∅)
                        (new_client default_config));
  env := {| clock := {| readings := fun _ => 1700000030%Q; ticks := 0 |};
            http := fun _ _ => not_found; requests := 0; trace := [] |};
|}.

Lemma open_breaker_serves_cache_witness :
  exists w',
    get_validator_uptime (Some "0xABC") "Testnet" None open_world
      = (Ok (Some cached_record), w')
    /\ requests (env w') = 0%nat
    /\ trace (env w') = [].
Proof.
  destruct (open_breaker_serves_cache "0xABC" "Testnet" open_world) as (w' & E & R & T & _).
  - discriminate.
  - split; [reflexivity|]. vm_compute. intros i _. reflexivity.
  - exists w'. split; [exact E|]. split; [exact R|exact T].
Defined.

End OpenBreaker.

(** ** Parts of the client a computation keeps *)

Module Frames.
Import Py Huginn HuginnProofs.
Local Open Scope huginn_scope.

Lemma caches_eq c c' :
  caches c' = caches c -> c' = with_circuit_breakers (_circuit_breakers c') c.
Proof.
  destruct c, c'. unfold caches. simpl. intros H. injection H as -> -> -> -> -> ->.
  reflexivity.
Qed.

Section Keeps.
Context {B : Type} (f : HuginnClient -> B).
Hypothesis f_breakers : forall b c, f (with_circuit_breakers b c) = f c.
Hypothesis f_rounds : forall r t c, f (with_network_rounds r t c) = f c.

(** The computation leaves [f] of the client as it is, also when it
    raises. *)
Definition keeps {A} (m : M A) : Prop :=
  forall w, f (self (snd (m w))) = f (self w).

Lemma keeps_bind {A C} (m : M A) (k : A -> M C) :
  keeps m -> (forall a, keeps (k a)) -> keeps (bind m k).
Proof.
  intros Hm Hk w. unfold bind. specialize (Hm w).
  destruct (m w) as [[a|e] w1]; [|exact Hm].
  rewrite (Hk a w1). exact Hm.
Qed.

Lemma keeps_ret {A} (a : A) : keeps (ret a).
Proof. now intros w. Qed.

Lemma keeps_lift {A} (r : result A) : keeps (lift r).
Proof. now intros w. Qed.

Lemma keeps_get_self : keeps get_self.
Proof. now intros w. Qed.

Lemma keeps_now : keeps now_.
Proof. intros w. unfold now_. now destruct (time_time _). Qed.

Lemma keeps_store key round now : keeps (store_network_round key round now).
Proof. intros w. simpl. apply f_rounds. Qed.

Lemma keeps_fetch url network tmo : keeps (_fetch_with_retry url network tmo).
Proof.
  intros w. destruct (quiet_fetch_with_retry url network tmo w) as (r & w' & E & F).
  rewrite E. simpl. rewrite (caches_eq _ _ F). apply f_breakers.
Qed.

Lemma keeps_query_references base network ref_ids : forall acc,
  keeps (query_reference_validators base network ref_ids acc).
Proof.
  induction ref_ids as [|ref_id rest IH]; intros acc; cbn [query_reference_validators].
  - apply keeps_ret.
  - apply keeps_bind; [apply keeps_get_self|intros c].
    apply keeps_bind; [apply keeps_fetch|intros [r|]]; [|apply IH].
    destruct (status_code r =? 429); [apply IH|].
    destruct (400 <=? status_code r); [apply IH|].
    destruct (json r); [|apply IH].
    apply keeps_bind; [apply keeps_lift|intros [round|]]; apply IH.
Qed.

Lemma keeps_multi_validator base network key now :
  keeps (multi_validator_strategy base network key now).
Proof.
  unfold multi_validator_strategy.
  apply keeps_bind; [apply keeps_query_references|intros [|first others]].
  - apply keeps_bind; [apply keeps_get_self|intros; apply keeps_ret].
  - apply keeps_bind; [apply keeps_store|intros; apply keeps_ret].
Qed.

Lemma keeps_hinted base network key now id :
  keeps (query_hinted_validator base network key now id).
Proof.
  unfold query_hinted_validator.
  apply keeps_bind; [apply keeps_get_self|intros c].
  apply keeps_bind; [apply keeps_fetch|intros [r|]]; [|apply keeps_ret].
  destruct (status_code r =? 200); [|apply keeps_ret].
  destruct (json r); [|apply keeps_ret].
  apply keeps_bind; [apply keeps_lift|intros [round|]]; [|apply keeps_ret].
  apply keeps_bind; [apply keeps_store|intros; apply keeps_ret].
Qed.

Lemma keeps_network_round network gmonads_client :
  keeps (_get_current_network_round network gmonads_client).
Proof.
  unfold _get_current_network_round.
  apply keeps_bind; [apply keeps_now|intros now].
  apply keeps_bind; [apply keeps_get_self|intros c].
  destruct (fresh_network_round _ _ _); [apply keeps_ret|].
  destruct (_get_active_validator_id_via_gmonads _ _); [|apply keeps_multi_validator].
  apply keeps_bind; [apply keeps_hinted|intros [round|]];
    [apply keeps_ret|apply keeps_multi_validator].
Qed.

Lemma keeps_parse secp data network_round used_cached_round :
  keeps (_parse_uptime_response secp data network_round used_cached_round).
Proof.
  unfold _parse_uptime_response.
  destruct (negb (truthy data)); [apply keeps_ret|].
  repeat (first [ apply keeps_ret | apply keeps_lift | apply keeps_now
                | apply keeps_bind; [|intros ?]
                | match goal with
                  | |- keeps (match ?x with _ => _ end) => destruct x
                  | |- keeps (if ?b then _ else _) => destruct b
                  end ]).
Qed.

End Keeps.

(** The uptime cache with its times and the configuration. *)
Definition uptime_part (c : HuginnClient) := (config c, _cache c, _cache_times c).

(** The round cache with its times and its TTL. *)
Definition round_part (c : HuginnClient) :=
  (_network_rounds c, _network_round_times c, _network_round_ttl c).

End Frames.

(** ** The network round *)

Module RoundProperties.
Import Py Huginn HuginnProofs Frames.
Local Open Scope huginn_scope.

Lemma round_part_breakers b c : round_part (with_circuit_breakers b c) = round_part c.
Proof. reflexivity. Qed.

Lemma ttl_breakers b c :
  _network_round_ttl (with_circuit_breakers b c) = _network_round_ttl c.
Proof. reflexivity. Qed.

Lemma ttl_rounds r t c : _network_round_ttl (with_network_rounds r t c) = _network_round_ttl c.
Proof. reflexivity. Qed.

(** Where a round was stored it can be read back, with its time. *)
Definition holds_round (key : string) (round : Z) (now : Q) (c : HuginnClient) : Prop :=
  _network_rounds c !! key = Some round /\ _network_round_times c !! key = Some now.

Lemma store_holds key round now w u w' :
  store_network_round key round now w = (Ok u, w') -> holds_round key round now (self w').
Proof.
  unfold store_network_round, set_self. intros H. injection H as _ <-.
  split; simpl; apply lookup_insert_eq.
Qed.

Lemma hinted_some base network key now id w round w' :
  query_hinted_validator base network key now id w = (Ok (Some round), w') ->
  holds_round key round now (self w').
Proof.
  unfold query_hinted_validator. intros H.
  apply bind_ok in H as (c & ? & _ & H).
  apply bind_ok in H as (response & w1 & _ & H).
  destruct response as [r|]; [|now apply ret_ok in H].
  destruct (status_code r =? 200); [|now apply ret_ok in H].
  destruct (json r) as [data|]; [|now apply ret_ok in H].
  apply bind_ok in H as ([current|] & w2 & _ & H); [|now apply ret_ok in H].
  apply bind_ok in H as (u & w3 & Hstore & H).
  apply ret_ok in H as [Hr ->]. injection Hr as Hr. subst round.
  now apply store_holds in Hstore.
Qed.

Lemma multi_validator_fresh base network key now w round w' :
  multi_validator_strategy base network key now w = (Ok (Some round, false), w') ->
  holds_round key round now (self w').
Proof.
  unfold multi_validator_strategy. intros H.
  apply bind_ok in H as ([|first others] & w1 & _ & H).
  - apply bind_ok in H as (c & ? & _ & H). apply ret_ok in H as [Hr _].
    injection Hr as Hcached Hflag.
    destruct (_network_rounds c !! key); [discriminate Hflag|discriminate Hcached].
  - apply bind_ok in H as (u & w2 & Hstore & H).
    apply ret_ok in H as [Hr ->]. injection Hr as Hr. subst round.
    now apply store_holds in Hstore.
Qed.

(** A round returned as fresh is in the round cache, stamped with the
    clock reading of the call. *)
Lemma fresh_round_stored network gmonads_client w round w' :
  _get_current_network_round network gmonads_client w = (Ok (Some round, false), w') ->
  holds_round (lower network) round (fst (time_time (clock (env w)))) (self w')
  /\ _network_round_ttl (self w') = _network_round_ttl (self w).
Proof.
  intros H. split.
  - unfold _get_current_network_round in H.
    apply bind_ok in H as (now & w0 & Hnow & H).
    assert (now = fst (time_time (clock (env w)))) as <-.
    { unfold now_ in Hnow. destruct (time_time _). now injection Hnow as <- _. }
    apply bind_ok in H as (c & ? & _ & H).
    destruct (fresh_network_round _ _ _); [now apply ret_ok in H|].
    destruct (_get_active_validator_id_via_gmonads _ _) as [id|];
      [|now apply multi_validator_fresh in H].
    apply bind_ok in H as ([current|] & w1 & Hhint & H).
    + apply ret_ok in H as [Hr ->]. injection Hr as Hr. subst round.
      now apply hinted_some in Hhint.
    + now apply multi_validator_fresh in H.
  - pose proof (keeps_network_round _network_round_ttl ttl_breakers ttl_rounds
                  network gmonads_client w) as K.
    now rewrite H in K.
Qed.

(** X6. A network round that was resolved afresh is served from the
    cache afterwards: any later call for the same network (in any
    letter case) whose clock reading is less than the TTL after the
    first call returns the same round, marked as cached, and makes no
    request. *)
Theorem fresh_round_is_reused
    (network : string) (gmonads_client : option GmonadsClient) (w : World)
    (round : Z) (w1 : World)
    (network' : string) (gmonads_client' : option GmonadsClient) (w2 : World) :
  _get_current_network_round network gmonads_client w = (Ok (Some round, false), w1) ->
  lower network' = lower network ->
  self w2 = self w1 ->
  Qltb (fst (time_time (clock (env w2))) - fst (time_time (clock (env w))))
       (inject_Z (_network_round_ttl (self w))) = true ->
  _get_current_network_round network' gmonads_client' w2
    = (Ok (Some round, true), after_clock_read w2).
Proof.
  intros Hfirst Hkey Hself Hfresh.
  destruct (fresh_round_stored _ _ _ _ _ Hfirst) as [[Hround Htime] Httl].
  unfold _get_current_network_round, bind at 1. unfold now_, after_clock_read.
  destruct (time_time (clock (env w2))) as [now c] eqn:Et.
  unfold bind at 1. unfold get_self. cbn [self fst snd] in *.
  unfold fresh_network_round. rewrite Hkey, Hself, Hround, Htime, Httl.
  cbn [default from_option id]. now rewrite Hfresh.
Qed.

Lemma fresh_round_is_reused_witness :
  exists w1,
    _get_current_network_round "testnet" None (fresh_world reference_answers)
      = (Ok (Some 150, false), w1)
    /\ _get_current_network_round "TESTNET" None w1
      = (Ok (Some 150, true), after_clock_read w1).
Proof.
  eassert (_get_current_network_round "testnet" None (fresh_world reference_answers)
           = (Ok (Some 150, false), _)) as Hfirst by (vm_compute; reflexivity).
  eexists. split; [exact Hfirst|].
  apply (fresh_round_is_reused _ _ _ _ _ "TESTNET" None _ Hfirst);
    [reflexivity|reflexivity|vm_compute; reflexivity].
Defined.

(** A first response below 500 ends the loop after one request. *)
Lemma retry_loop_terminal url key tmo w r :
  http (env w) (requests (env w)) url = Responded r ->
  (status_code r <? 500) = true ->
  retry_loop (seq 0 MAX_RETRIES) url key tmo w
    = (Ok (Some r), snd (breaker_record_success key (snd (requests_get url tmo w)))).
Proof.
  intros Hout Hstatus. unfold MAX_RETRIES. cbn [seq retry_loop].
  unfold bind at 1. unfold requests_get at 1. rewrite Hout, Hstatus.
  reflexivity.
Qed.

(** X7. When gmonads names an active validator and Huginn answers 200
    for it with a round, the network round is resolved with that single
    request (the five reference validators are not asked), returned as
    fresh and stored in the round cache. *)
Theorem hinted_round_single_request
    (network : string) (gmonads_client : option GmonadsClient) (w : World)
    (id : Z) (r : HttpResponse) (data : pyval) (round : Z) :
  let key := lower network in
  let now := fst (time_time (clock (env w))) in
  let url := uptime_url (get_endpoint (config (self w)) (Some network)) (pretty id) in
  fresh_network_round key now (self w) = None ->
  _get_active_validator_id_via_gmonads network gmonads_client = Some id ->
  breaker_admits network (after_clock_read w) = true ->
  http (env w) (requests (env w)) url = Responded r ->
  status_code r = 200 ->
  json r = Some data ->
  reported_round data = Ok (Some round) ->
  exists w',
    _get_current_network_round network gmonads_client w = (Ok (Some round, false), w')
    /\ requests (env w') = S (requests (env w))
    /\ _network_rounds (self w') !! key = Some round.
Proof.
  intros key now url Hstale Hhint Hadmit Hout Hstatus Hjson Hround.
  unfold _get_current_network_round, bind at 1. unfold now_.
  assert (after_clock_read w
          = {| self := self w; env := with_clock (snd (time_time (clock (env w)))) (env w) |})
    as Hread by reflexivity.
  destruct (time_time (clock (env w))) as [t c] eqn:Et.
  unfold bind at 1. unfold get_self. cbn [self fst snd] in *.
  fold key. subst now. rewrite Hstale, Hhint.
  unfold bind at 1. unfold query_hinted_validator.
  unfold bind at 1. unfold get_self. cbn [self].
  unfold bind at 1. fold url.
  rewrite fetch_with_retry_breaker. rewrite <- Hread, Hadmit.
  rewrite (retry_loop_terminal url (lower network) (timeout (config (self w)))
             (after_breaker network (after_clock_read w)) r).
  - rewrite Hstatus, Hjson. cbn [Z.eqb Pos.eqb].
    unfold bind at 1. unfold lift. rewrite Hround.
    unfold bind, store_network_round, set_self, ret.
    eexists. split; [reflexivity|]. split.
    + unfold after_breaker, after_clock_read. destruct (can_execute _ _) as [[? ?] ?].
      reflexivity.
    + cbn [self _network_rounds with_network_rounds]. apply lookup_insert_eq.
  - unfold after_breaker, after_clock_read. destruct (can_execute _ _) as [[? ?] ?].
    exact Hout.
  - rewrite Hstatus. reflexivity.
Qed.

(** gmonads knows validator 42 as active; Huginn reports a round for it
    and knows nobody else. *)
Definition hinting_client : GmonadsClient :=
  fun _ => GmValidators [ {| val_index := 10; validator_set_type := "inactive" |};
                          {| val_index := 42; validator_set_type := "active" |} ].

Definition hinted_answers (_ : nat) (url : string) : HttpOutcome :=
  if String.eqb url (uptime_url DEFAULT_TESTNET_ENDPOINT "42") then round_report 51712837
  else not_found.

Lemma hinted_round_single_request_witness :
  exists w',
    _get_current_network_round "testnet" (Some hinting_client) (fresh_world hinted_answers)
      = (Ok (Some 51712837, false), w')
    /\ requests (env w') = 1%nat
    /\ _network_rounds (self w') !! "testnet" = Some 51712837.
Proof.
  apply (hinted_round_single_request "testnet" (Some hinting_client)
           (fresh_world hinted_answers) 42
           {| status_code := 200;
              json := Some (PDict [("success", PBool true);
                                   ("uptime", PDict [("last_round", PInt 51712837)])]) |}
           (PDict [("success", PBool true); ("uptime", PDict [("last_round", PInt 51712837)])])
           51712837); reflexivity.
Defined.

End RoundProperties.

(** ** The uptime cache *)

Module UptimeProperties.
Import Py Huginn HuginnProofs Frames.
Local Open Scope huginn_scope.

Lemma uptime_part_breakers b c : uptime_part (with_circuit_breakers b c) = uptime_part c.
Proof. reflexivity. Qed.

Lemma uptime_part_rounds r t c : uptime_part (with_network_rounds r t c) = uptime_part c.
Proof. reflexivity. Qed.

Lemma uptime_part_eq c c' :
  uptime_part c' = uptime_part c ->
  config c' = config c /\ _cache c' = _cache c /\ _cache_times c' = _cache_times c.
Proof. unfold uptime_part. intros H. now injection H. Qed.

(** What a call of [get_validator_uptime] does to the uptime cache: it
    leaves it alone, and then a record it returns is the one cached under
    the key; or it has stored the record it returns under the key, with
    the time read at the start of the call. *)
Inductive CacheEffect (key : string) (now : Q) (c : HuginnClient)
    : result (option ValidatorUptime) -> HuginnClient -> Prop :=
| Untouched r c' :
    uptime_part c' = uptime_part c ->
    (forall u, r = Ok (Some u) -> _cache c !! key = Some u) ->
    CacheEffect key now c r c'
| Stored u c' :
    fresh_uptime key now c = None ->
    config c' = config c ->
    _cache c' = <[key := u]> (_cache c) ->
    _cache_times c' = <[key := now]> (_cache_times c) ->
    CacheEffect key now c (Ok (Some u)) c'.

Definition cache_effect (key : string) (now : Q) (c : HuginnClient)
    (out : result (option ValidatorUptime) * World) : Prop :=
  CacheEffect key now c (fst out) (self (snd out)).

Lemma uptime_cache_effect secp network gmonads_client w :
  cache_effect (cache_key_of network secp) (fst (time_time (clock (env w)))) (self w)
    (get_validator_uptime (Some secp) network gmonads_client w).
Proof.
  unfold get_validator_uptime.
  destruct (negb (nonempty secp)); [now apply Untouched|].
  unfold bind at 1. unfold now_.
  destruct (time_time (clock (env w))) as [now c1].
  unfold bind at 1. unfold get_self at 1. cbn [fst snd self].
  set (w1 := {| self := self w; env := with_clock c1 (env w) |}).
  destruct (fresh_uptime _ _ _) as [cached|] eqn:Efresh.
  { apply Untouched; [reflexivity|]. intros u Hu. injection Hu as <-.
    now apply fresh_uptime_cached in Efresh. }
  unfold bind at 1.
  pose proof (keeps_network_round uptime_part uptime_part_breakers uptime_part_rounds
                network gmonads_client w1) as K2.
  change (self w1) with (self w) in K2.
  destruct (_get_current_network_round network gmonads_client w1)
    as [[[network_round used_cached_round]|e] w2]; cbn [fst snd] in *;
    [|now apply Untouched].
  unfold bind at 1.
  match goal with
  | |- context [_fetch_with_retry ?u ?n ?t w2] =>
      pose proof (keeps_fetch uptime_part uptime_part_breakers u n t w2) as K3;
      destruct (_fetch_with_retry u n t w2) as [[response|e] w3]
  end; cbn [fst snd] in *; [|apply Untouched; [cbn [snd]; congruence|discriminate]].
  assert (uptime_part (self w3) = uptime_part (self w)) as K by (rewrite K3; exact K2).
  assert (forall key, cache_effect key now (self w) (cached_uptime key w3)) as Hcached.
  { intros key. apply Untouched; [exact K|]. intros u Hu.
    unfold cached_uptime, bind, get_self, ret in Hu. cbn [fst] in Hu.
    apply uptime_part_eq in K as (_ & Hc & _). rewrite Hc in Hu. congruence. }
  destruct response as [r|]; [|apply Hcached].
  destruct (status_code r =? 429); [apply Hcached|].
  destruct (400 <=? status_code r); [apply Hcached|].
  destruct (json r) as [response_data|]; [|apply Hcached].
  unfold bind at 1.
  match goal with
  | |- context [_parse_uptime_response ?a ?d ?n ?c w3] =>
      pose proof (keeps_parse uptime_part a d n c w3) as K4;
      destruct (_parse_uptime_response a d n c w3) as [[[u|]|e] w4]
  end; cbn [fst snd] in *;
    try (apply Untouched; [unfold ret; cbn [snd]; congruence|discriminate]).
  assert (uptime_part (self w4) = uptime_part (self w)) as K' by congruence.
  apply uptime_part_eq in K' as (Hcfg & Hc & Ht).
  unfold cache_effect, bind, set_self, ret. cbn [fst snd self].
  apply Stored; [exact Efresh|exact Hcfg| |]; simpl; congruence.
Qed.

(** X8. A record that [get_validator_uptime] returns is the record the
    cache holds for the validator after the call, whether it was served
    fresh from the cache, as a stale fallback, or parsed from a
    response. *)
Theorem uptime_result_is_cached
    (secp network : string) (gmonads_client : option GmonadsClient)
    (w : World) (u : ValidatorUptime) (w' : World) :
  get_validator_uptime (Some secp) network gmonads_client w = (Ok (Some u), w') ->
  _cache (self w') !! cache_key_of network secp = Some u.
Proof.
  intros H. pose proof (uptime_cache_effect secp network gmonads_client w) as E.
  unfold cache_effect in E. rewrite H in E. cbn [fst snd] in E.
  inversion E as [r c' Hpart Hres|v c' _ _ Hcache _]; subst.
  - apply uptime_part_eq in Hpart as (_ & -> & _). now apply Hres.
  - rewrite Hcache. apply lookup_insert_eq.
Qed.

Lemma uptime_result_is_cached_witness :
  exists u w',
    get_validator_uptime (Some "0xunknownstatus") "Testnet" None
      (fresh_world answers_without_round) = (Ok (Some u), w')
    /\ _cache (self w') !! "testnet:0xunknownstatus" = Some u.
Proof.
  eassert (get_validator_uptime (Some "0xunknownstatus") "Testnet" None
             (fresh_world answers_without_round) = (Ok (Some _), _)) as Huptime
    by (vm_compute; reflexivity).
  eexists _, _. split; [exact Huptime|].
  exact (uptime_result_is_cached _ _ _ _ _ _ Huptime).
Defined.

(** X9. A call of [get_validator_uptime], whether it returns or raises,
    changes the uptime cache and its times at most under the key of the
    validator it was asked about (network and address in lower case), and
    leaves the configuration as it is. *)
Theorem uptime_cache_isolated
    (secp network : string) (gmonads_client : option GmonadsClient) (w : World) :
  let key := cache_key_of network secp in
  let w' := snd (get_validator_uptime (Some secp) network gmonads_client w) in
  config (self w') = config (self w)
  /\ delete key (_cache (self w')) = delete key (_cache (self w))
  /\ delete key (_cache_times (self w')) = delete key (_cache_times (self w)).
Proof.
  intros key w'. subst key w'.
  pose proof (uptime_cache_effect secp network gmonads_client w) as E.
  unfold cache_effect in E.
  destruct E as [r c' Hpart _|v c' _ Hcfg Hcache Htimes].
  - apply uptime_part_eq in Hpart as (-> & -> & ->). auto.
  - rewrite Hcfg, Hcache, Htimes, !delete_insert_eq. auto.
Qed.

Lemma nonempty_lower s : nonempty (lower s) = nonempty s.
Proof. now destruct s. Qed.

(** X10. The first successful lookup of a validator is cached: when the
    cache held nothing for the validator and [get_validator_uptime]
    returned a record, a later call for the same validator (address and
    network in any letter case) whose clock reading is less than
    [check_interval] after the first call returns that record without any
    request, and [get_cache_age] reports the time elapsed since the first
    call. *)
Theorem first_lookup_is_reused
    (secp network : string) (gmonads_client : option GmonadsClient) (w : World)
    (u : ValidatorUptime) (w1 : World)
    (secp' network' : string) (gmonads_client' : option GmonadsClient) (w2 : World) :
  let first_time := fst (time_time (clock (env w))) in
  let second_time := fst (time_time (clock (env w2))) in
  _cache (self w) !! cache_key_of network secp = None ->
  get_validator_uptime (Some secp) network gmonads_client w = (Ok (Some u), w1) ->
  lower secp' = lower secp ->
  lower network' = lower network ->
  self w2 = self w1 ->
  Qltb (second_time - first_time) (inject_Z (check_interval (config (self w)))) = true ->
  get_validator_uptime (Some secp') network' gmonads_client' w2
    = (Ok (Some u), after_clock_read w2)
  /\ get_cache_age secp' network' w2
    = (Ok (Some (second_time - first_time)%Q), after_clock_read w2).
Proof.
  intros first_time second_time Hnone Hfirst Hsecp Hnetwork Hself Hfresh.
  subst first_time second_time.
  assert (nonempty secp' = true) as Hnonempty.
  { rewrite <- nonempty_lower, Hsecp, nonempty_lower.
    unfold get_validator_uptime in Hfirst.
    destruct (nonempty secp); [reflexivity|]. now apply ret_ok in Hfirst. }
  assert (cache_key_of network' secp' = cache_key_of network secp) as Hkey.
  { unfold cache_key_of. now rewrite Hsecp, Hnetwork. }
  pose proof (uptime_cache_effect secp network gmonads_client w) as E.
  unfold cache_effect in E. rewrite Hfirst in E. cbn [fst snd] in E.
  inversion E as [r c' _ Hres|v c' _ Hcfg Hcache Htimes]; subst.
  { specialize (Hres u eq_refl). congruence. }
  split.
  - unfold get_validator_uptime. rewrite Hnonempty. cbn [negb].
    unfold bind at 1. unfold now_, after_clock_read.
    destruct (time_time (clock (env w2))) as [now c2].
    unfold bind at 1. unfold get_self. cbn [self fst snd] in *.
    unfold fresh_uptime.
    rewrite Hkey, Hself, Hcache, Htimes, Hcfg, !lookup_insert_eq.
    cbn [default from_option id]. now rewrite Hfresh.
  - unfold get_cache_age, bind at 1. unfold get_self. cbn [self].
    rewrite Hkey, Hself, Htimes, lookup_insert_eq.
    unfold bind, now_, ret, after_clock_read.
    destruct (time_time (clock (env w2))) as [now c2]. reflexivity.
Qed.

Lemma first_lookup_is_reused_witness :
  exists u w1,
    get_validator_uptime (Some "0xunknownstatus") "testnet" None
      (fresh_world answers_without_round) = (Ok (Some u), w1)
    /\ get_validator_uptime (Some "0xUNKNOWNSTATUS") "TestNet" None w1
       = (Ok (Some u), after_clock_read w1)
    /\ fst (get_cache_age "0xUNKNOWNSTATUS" "TestNet" w1)
       = Ok (Some (fst (time_time (clock (env w1)))
                   - fst (time_time (clock (env (fresh_world answers_without_round)))))%Q).
Proof.
  eassert (get_validator_uptime (Some "0xunknownstatus") "testnet" None
             (fresh_world answers_without_round) = (Ok (Some _), _)) as Hfirst
    by (vm_compute; reflexivity).
  eexists _, _. split; [exact Hfirst|].
  destruct (first_lookup_is_reused "0xunknownstatus" "testnet" None
              (fresh_world answers_without_round) _ _
              "0xUNKNOWNSTATUS" "TestNet" None _
              eq_refl Hfirst eq_refl eq_refl eq_refl) as [Hsecond Hage].
  - vm_compute. reflexivity.
  - split; [exact Hsecond|]. now rewrite Hage.
Defined.

End UptimeProperties.

(** ** Parsed records *)

Module RecordProperties.
Import Py Huginn HuginnProofs Frames UptimeProperties.
Local Open Scope huginn_scope.

(** The fields of an uptime record fit together: [is_ever_active] says
    whether [total_events] is positive; a validator that never took part
    has 0 percent; without a round difference the record is not active and
    its confidence is "unknown" (took part) or "high" (never did); with
    one, the difference is that of the network round and the last round
    of the record, it decides [is_active] against the threshold, and the
    confidence is "medium" or "high". *)
Definition well_formed (u : ValidatorUptime) : Prop :=
  gt (total_events u) (PInt 0) = Ok (is_ever_active u)
  /\ (is_ever_active u = false -> (uptime_percent u == 0)%Q)
  /\ match round_diff u with
     | PNone =>
         is_active u = false
         /\ confidence u = (if is_ever_active u then "unknown" else "high")
     | diff =>
         (exists current, current_network_round u = Some current
                          /\ sub (PInt current) (last_round u) = Ok diff)
         /\ le diff (PInt ACTIVE_SET_ROUND_THRESHOLD) = Ok (is_active u)
         /\ (confidence u = "medium" \/ confidence u = "high")
     end.

Lemma parse_well_formed secp data network_round used_cached_round w u w' :
  _parse_uptime_response secp data network_round used_cached_round w = (Ok (Some u), w') ->
  well_formed u.
Proof.
  unfold _parse_uptime_response.
  destruct (negb (truthy data)); [intros H; now apply ret_ok in H|].
  intros H.
  apply bind_ok in H as (total & w1 & _ & H).
  apply bind_ok in H as (ever_active & w2 & Hever & H).
  apply lift_ok in Hever as [Hever _].
  apply bind_ok in H as (finalized & w3 & _ & H).
  apply bind_ok in H as (timeouts & w4 & _ & H).
  apply bind_ok in H as (percent & w5 & Hpercent & H).
  apply bind_ok in H as (last & w6 & _ & H).
  apply bind_ok in H as ([[diff active] conf] & w7 & Hstatus & H).
  apply bind_ok in H as (id & w8 & _ & H).
  apply bind_ok in H as (name & w9 & _ & H).
  apply bind_ok in H as (height & w10 & _ & H).
  apply bind_ok in H as (since & w11 & _ & H).
  apply bind_ok in H as (fetched & w12 & _ & H).
  apply ret_ok in H as [Hu _]. injection Hu as ->.
  unfold well_formed.
  cbn [total_events is_ever_active uptime_percent round_diff is_active confidence
       current_network_round last_round].
  split; [exact Hever|]. split.
  { intros ->. apply ret_ok in Hpercent as [-> _]. reflexivity. }
  assert (diff = PNone -> active = false
                          /\ conf = (if ever_active then "unknown" else "high")) as Hnone.
  { intros ->. destruct network_round as [current|].
    - destruct (negb (is_none last)).
      + apply bind_ok in Hstatus as (d & ? & Hsub & Hstatus).
        apply lift_ok in Hsub as [Hsub _].
        apply bind_ok in Hstatus as (? & ? & _ & Hstatus).
        apply ret_ok in Hstatus as [Hst _]. inversion Hst; subst.
        now apply sub_not_none in Hsub.
      + destruct ever_active; apply ret_ok in Hstatus as [Hst _]; now inversion Hst.
    - destruct ever_active; apply ret_ok in Hstatus as [Hst _]; now inversion Hst. }
  assert (diff <> PNone ->
          (exists current, network_round = Some current /\ sub (PInt current) last = Ok diff)
          /\ le diff (PInt ACTIVE_SET_ROUND_THRESHOLD) = Ok active
          /\ (conf = "medium" \/ conf = "high")) as Hsome.
  { intros Hdiff. destruct network_round as [current|].
    - destruct (negb (is_none last)).
      + apply bind_ok in Hstatus as (d & ? & Hsub & Hstatus).
        apply lift_ok in Hsub as [Hsub _].
        apply bind_ok in Hstatus as (a & ? & Hle & Hstatus).
        apply lift_ok in Hle as [Hle _].
        apply ret_ok in Hstatus as [Hst _]. inversion Hst; subst.
        split; [eauto|]. split; [exact Hle|]. destruct used_cached_round; auto.
      + destruct ever_active; apply ret_ok in Hstatus as [Hst _]; inversion Hst; subst;
          contradiction.
    - destruct ever_active; apply ret_ok in Hstatus as [Hst _]; inversion Hst; subst;
        contradiction. }
  destruct diff; try (apply Hsome; discriminate). now apply Hnone.
Qed.

Definition cache_well_formed (c : HuginnClient) : Prop :=
  forall key u, _cache c !! key = Some u -> well_formed u.

(** X11. Well-formed records are an invariant of the client: when every
    record of the uptime cache is well formed, then after a call of
    [get_validator_uptime], returning or raising, every record of the
    cache still is, and so is a record the call returns. *)
Theorem records_stay_well_formed
    (secp_address : option string) (network : string) (gmonads_client : option GmonadsClient)
    (w : World) :
  cache_well_formed (self w) ->
  cache_well_formed (self (snd (get_validator_uptime secp_address network gmonads_client w)))
  /\ (forall u, fst (get_validator_uptime secp_address network gmonads_client w) = Ok (Some u)
                -> well_formed u).
Proof.
  intros Hcache.
  assert (forall u, fst (get_validator_uptime secp_address network gmonads_client w)
                      = Ok (Some u) -> well_formed u) as Hresult.
  { intros u Hu.
    destruct (get_validator_uptime secp_address network gmonads_client w) as [r w'] eqn:E.
    cbn [fst] in Hu. subst r.
    destruct (uptime_from_cache_or_parse _ _ _ _ _ _ E)
      as [[key Hkey]|(? & ? & ? & ? & ? & ? & Hparse)].
    - now apply (Hcache key).
    - now apply parse_well_formed in Hparse. }
  split; [|exact Hresult].
  destruct secp_address as [secp|]; [|exact Hcache].
  pose proof (uptime_cache_effect secp network gmonads_client w) as E.
  unfold cache_effect in E.
  destruct (get_validator_uptime (Some secp) network gmonads_client w) as [r w'].
  cbn [fst snd] in *.
  inversion E as [r' c' Hpart _|v c' _ _ Hstored _]; subst.
  - apply uptime_part_eq in Hpart as (_ & Hc & _). intros key u. rewrite Hc. apply Hcache.
  - intros key u. rewrite Hstored, lookup_insert. case_decide.
    + intros Hu. injection Hu as <-. now apply Hresult.
    + apply Hcache.
Qed.

Lemma records_stay_well_formed_witness :
  cache_well_formed
    (self (snd (get_validator_uptime (Some "0xunknownstatus") "testnet" None
                  (fresh_world answers_without_round))))
  /\ (is_Some (_cache (self (snd (get_validator_uptime (Some "0xunknownstatus") "testnet" None
                                    (fresh_world answers_without_round))))
               !! "testnet:0xunknownstatus")).
Proof.
  split.
  - apply (records_stay_well_formed (Some "0xunknownstatus") "testnet" None
             (fresh_world answers_without_round)).
    intros key u H. simpl in H. rewrite lookup_empty in H. discriminate H.
  - vm_compute. eexists. reflexivity.
Defined.

(** *** What may be raised *)

Definition expected (e : exn) : Prop :=
  e = AttributeError \/ e = TypeError \/ e = OverflowError.

Definition fails_as_expected {A} (r : result A) : Prop :=
  forall e, r = Raise e -> expected e.

Definition raises_only {A} (m : M A) : Prop :=
  forall w e, fst (m w) = Raise e -> expected e.

Lemma expected_ok {A} (a : A) : fails_as_expected (Ok a).
Proof. intros e H. discriminate H. Qed.

Lemma expected_get v key d : fails_as_expected (get v key d).
Proof. intros e. destruct v; cbn; intros H; inversion H; unfold expected; auto. Qed.

Lemma expected_get_or_zero data key : fails_as_expected (get_or_zero data key).
Proof.
  intros e. unfold get_or_zero. pose proof (expected_get data key (PInt 0)) as G.
  destruct (get data key (PInt 0)); [discriminate|]. intros H. apply G. congruence.
Qed.

Lemma expected_gt a b : fails_as_expected (gt a b).
Proof.
  intros e. unfold gt. destruct (as_number a), (as_number b);
    intros H; inversion H; unfold expected; auto.
Qed.

Lemma expected_le a b : fails_as_expected (le a b).
Proof.
  intros e. unfold le. destruct (as_number a), (as_number b);
    intros H; inversion H; unfold expected; auto.
Qed.

Lemma expected_float_of_number x : fails_as_expected (float_of_number x).
Proof.
  intros e. destruct x; cbn; [|discriminate].
  destruct (_ <? _); intros H; inversion H. unfold expected. auto.
Qed.

Lemma expected_sub a b : fails_as_expected (sub a b).
Proof.
  intros e. unfold sub.
  destruct (as_number a) as [x|]; [|intros H; inversion H; unfold expected; now auto].
  destruct (as_number b) as [y|];
    [|destruct x; intros H; inversion H; unfold expected; now auto].
  pose proof (expected_float_of_number x) as Hx.
  pose proof (expected_float_of_number y) as Hy.
  destruct x as [m|f], y as [n|g]; try discriminate;
    destruct (float_of_number _) as [p|e1]; try destruct (float_of_number _) as [q|e2];
    intros H; inversion H; subst; first [now apply Hx | now apply Hy].
Qed.

Lemma expected_reported_round data : fails_as_expected (reported_round data).
Proof.
  intros e. unfold reported_round.
  destruct data; try (intros H; inversion H; unfold expected; now auto).
  destruct (_ && _); [|discriminate].
  pose proof (expected_get (dict_get items "uptime" PNone) "last_round" PNone) as G.
  destruct (get _ _ _); [discriminate|]. intros H. apply G. congruence.
Qed.

Lemma positive_nonzero q : Qltb 0 q = true -> Qeq_bool q 0 = false.
Proof.
  unfold Qltb. intros H. destruct (Qeq_bool q 0) eqn:E; [|reflexivity].
  apply Qeq_bool_iff in E. apply negb_true_iff in H.
  assert (Qle_bool q 0 = true) as L by (apply Qle_bool_iff; rewrite E; apply Qle_refl).
  congruence.
Qed.

(** The division of [_parse_uptime_response] is guarded by
    [total_events > 0]: it does not divide by zero. *)
Lemma expected_truediv a b : gt b (PInt 0) = Ok true -> fails_as_expected (truediv a b).
Proof.
  unfold gt, truediv. intros Hgt e.
  destruct (as_number b) as [y|]; [|discriminate].
  cbn [as_number number_value] in Hgt. injection Hgt as Hgt.
  destruct (as_number a) as [x|]; [|intros H; inversion H; unfold expected; now auto].
  pose proof (expected_float_of_number x) as Hx.
  pose proof (expected_float_of_number y) as Hy.
  destruct x as [x|x], y as [y|y].
  - cbn [number_value] in Hgt. rewrite Qltb_inject_Z in Hgt.
    destruct (Z.eqb_spec y 0) as [->|_]; [discriminate Hgt|].
    destruct (Z.abs x <? _); intros H; inversion H. unfold expected. auto.
  - destruct (float_of_number (NInt x)) as [p|e1];
      [|intros H; inversion H; subst; now apply Hx].
    cbn [float_of_number number_value] in *. rewrite (positive_nonzero _ Hgt). discriminate.
  - destruct (float_of_number (NInt y)) as [q|e1] eqn:Ey.
    + cbn [float_of_number] in *. destruct (_ <? _); [|discriminate Ey].
      injection Ey as <-. cbn [number_value] in Hgt.
      rewrite (positive_nonzero _ Hgt). discriminate.
    + cbn [float_of_number] in *. destruct (_ <? _); [discriminate Ey|].
      intros H; inversion H; subst. now apply Hy.
  - cbn [float_of_number number_value] in *. rewrite (positive_nonzero _ Hgt). discriminate.
Qed.

Lemma raises_only_ret {A} (a : A) : raises_only (ret a).
Proof. intros w e H. discriminate H. Qed.

Lemma raises_only_lift {A} (r : result A) : fails_as_expected r -> raises_only (lift r).
Proof. intros Hr w e H. now apply Hr. Qed.

(** [P] holds of what [m] returns. *)
Definition returns {A} (m : M A) (P : A -> Prop) : Prop :=
  forall w a w', m w = (Ok a, w') -> P a.

Lemma raises_only_bind_post {A C} (m : M A) (k : A -> M C) (P : A -> Prop) :
  raises_only m -> returns m P -> (forall a, P a -> raises_only (k a)) ->
  raises_only (bind m k).
Proof.
  intros Hm HP Hk w e. unfold bind. specialize (Hm w). specialize (HP w).
  destruct (m w) as [[a|e1] w1].
  - apply Hk. now apply (HP a w1).
  - cbn [fst] in *. intros H. apply Hm. congruence.
Qed.

Lemma raises_only_bind {A C} (m : M A) (k : A -> M C) :
  raises_only m -> (forall a, raises_only (k a)) -> raises_only (bind m k).
Proof.
  intros Hm Hk. apply raises_only_bind_post with (P := fun _ => True); auto.
  now intros w a w' _.
Qed.

Lemma raises_only_get_self : raises_only get_self.
Proof. intros w e H. discriminate H. Qed.

Lemma raises_only_now : raises_only now_.
Proof. intros w e. unfold now_. destruct (time_time _). discriminate. Qed.

Lemma raises_only_set_self f : raises_only (set_self f).
Proof. intros w e H. discriminate H. Qed.

Lemma raises_only_fetch url network tmo : raises_only (_fetch_with_retry url network tmo).
Proof.
  intros w e. destruct (quiet_fetch_with_retry url network tmo w) as (r & w' & E & _).
  rewrite E. discriminate.
Qed.

Lemma raises_only_query_references base network ref_ids : forall acc,
  raises_only (query_reference_validators base network ref_ids acc).
Proof.
  induction ref_ids as [|ref_id rest IH]; intros acc; cbn [query_reference_validators].
  - apply raises_only_ret.
  - apply raises_only_bind; [apply raises_only_get_self|intros c].
    apply raises_only_bind; [apply raises_only_fetch|intros [r|]]; [|apply IH].
    destruct (status_code r =? 429); [apply IH|].
    destruct (400 <=? status_code r); [apply IH|].
    destruct (json r); [|apply IH].
    apply raises_only_bind;
      [apply raises_only_lift, expected_reported_round|intros [round|]]; apply IH.
Qed.

Lemma raises_only_multi_validator base network key now :
  raises_only (multi_validator_strategy base network key now).
Proof.
  unfold multi_validator_strategy.
  apply raises_only_bind; [apply raises_only_query_references|intros [|first others]].
  - apply raises_only_bind; [apply raises_only_get_self|intros; apply raises_only_ret].
  - apply raises_only_bind; [apply raises_only_set_self|intros; apply raises_only_ret].
Qed.

Lemma raises_only_hinted base network key now id :
  raises_only (query_hinted_validator base network key now id).
Proof.
  unfold query_hinted_validator.
  apply raises_only_bind; [apply raises_only_get_self|intros c].
  apply raises_only_bind; [apply raises_only_fetch|intros [r|]]; [|apply raises_only_ret].
  destruct (status_code r =? 200); [|apply raises_only_ret].
  destruct (json r); [|apply raises_only_ret].
  apply raises_only_bind;
    [apply raises_only_lift, expected_reported_round|intros [round|]];
    [|apply raises_only_ret].
  apply raises_only_bind; [apply raises_only_set_self|intros; apply raises_only_ret].
Qed.

Lemma raises_only_network_round network gmonads_client :
  raises_only (_get_current_network_round network gmonads_client).
Proof.
  unfold _get_current_network_round.
  apply raises_only_bind; [apply raises_only_now|intros now].
  apply raises_only_bind; [apply raises_only_get_self|intros c].
  destruct (fresh_network_round _ _ _); [apply raises_only_ret|].
  destruct (_get_active_validator_id_via_gmonads _ _); [|apply raises_only_multi_validator].
  apply raises_only_bind; [apply raises_only_hinted|intros [round|]];
    [apply raises_only_ret|apply raises_only_multi_validator].
Qed.

Ltac raises_only_step :=
  first [ apply raises_only_ret | apply raises_only_now
        | apply raises_only_lift;
          first [ apply expected_get | apply expected_get_or_zero | apply expected_gt
                | apply expected_le | apply expected_sub ]
        | apply raises_only_bind; [|intros ?]
        | match goal with
          | |- raises_only (match ?x with _ => _ end) => destruct x
          | |- raises_only (if ?b then _ else _) => destruct b
          end ].

Lemma raises_only_parse secp data network_round used_cached_round :
  raises_only (_parse_uptime_response secp data network_round used_cached_round).
Proof.
  unfold _parse_uptime_response.
  destruct (negb (truthy data)); [apply raises_only_ret|].
  apply raises_only_bind; [apply raises_only_lift, expected_get_or_zero|intros total].
  apply raises_only_bind_post with (P := fun b => gt total (PInt 0) = Ok b).
  { apply raises_only_lift, expected_gt. }
  { intros w a w' H. now apply lift_ok in H. }
  intros ever_active Hever.
  apply raises_only_bind; [apply raises_only_lift, expected_get_or_zero|intros finalized].
  apply raises_only_bind; [apply raises_only_lift, expected_get_or_zero|intros timeouts].
  apply raises_only_bind.
  { destruct ever_active; [|apply raises_only_ret].
    apply raises_only_bind; [|intros; apply raises_only_ret].
    now apply raises_only_lift, expected_truediv. }
  intros percent. repeat raises_only_step.
Qed.

(** X12. [get_validator_uptime] raises nothing but [AttributeError],
    [TypeError] and [OverflowError]: a failed request, an error status and
    a body that is not JSON are all caught, and the division by
    [total_events] is never a division by zero. *)
Theorem get_validator_uptime_raises_only
    (secp_address : option string) (network : string) (gmonads_client : option GmonadsClient)
    (w : World) (e : exn) :
  fst (get_validator_uptime secp_address network gmonads_client w) = Raise e ->
  e = AttributeError \/ e = TypeError \/ e = OverflowError.
Proof.
  revert w e. change (raises_only (get_validator_uptime secp_address network gmonads_client)).
  unfold get_validator_uptime.
  destruct secp_address as [secp|]; [|apply raises_only_ret].
  destruct (negb (nonempty secp)); [apply raises_only_ret|].
  apply raises_only_bind; [apply raises_only_now|intros now].
  apply raises_only_bind; [apply raises_only_get_self|intros c].
  destruct (fresh_uptime _ _ _); [apply raises_only_ret|].
  apply raises_only_bind; [apply raises_only_network_round|intros [network_round used]].
  assert (forall key, raises_only (cached_uptime key)) as Hcached.
  { intros key. unfold cached_uptime.
    apply raises_only_bind; [apply raises_only_get_self|intros; apply raises_only_ret]. }
  apply raises_only_bind; [apply raises_only_fetch|intros [r|]]; [|apply Hcached].
  destruct (status_code r =? 429); [apply Hcached|].
  destruct (400 <=? status_code r); [apply Hcached|].
  destruct (json r); [|apply Hcached].
  apply raises_only_bind; [apply raises_only_parse|intros [u|]]; [|apply raises_only_ret].
  apply raises_only_bind; [apply raises_only_set_self|intros; apply raises_only_ret].
Qed.

Lemma get_validator_uptime_raises_only_witness :
  AttributeError = AttributeError \/ AttributeError = TypeError
  \/ AttributeError = OverflowError.
Proof.
  apply (get_validator_uptime_raises_only (Some "0xabc") "testnet" None
           (fresh_world (answers_with_body (PList [PInt 1])))).
  vm_compute. reflexivity.
Defined.

(** X13. [get_active_set_status] and [is_validator_active] leave the
    client and the environment in the same state and fail alike; when
    both return, they agree on whether a record was found, and whenever
    the message reports a round difference the two give the same
    answer. The messages "Never participated in consensus" and "Active
    (no round comparison available)" come with a fixed answer that does
    not look at [is_active]. *)
Theorem status_and_is_active_agree
    (secp_address : option string) (network : string) (w : World) :
  snd (get_active_set_status secp_address network w)
    = snd (is_validator_active secp_address network w)
  /\ match fst (get_active_set_status secp_address network w),
           fst (is_validator_active secp_address network w) with
     | Ok (answer, message, diff), Ok active =>
         match message with
         | UnableToFetch => answer = None /\ active = None /\ diff = PNone
         | NeverParticipated => answer = Some false /\ is_Some active /\ diff = PInt 0
         | ActiveNoComparison => answer = Some true /\ is_Some active /\ diff = PNone
         | ActiveBehind behind =>
             answer = Some true /\ active = Some true /\ diff = behind
         | InactiveBehind behind threshold =>
             answer = Some false /\ active = Some false /\ diff = behind
             /\ threshold = ACTIVE_SET_ROUND_THRESHOLD
         end
     | Raise e, Raise e' => e = e'
     | _, _ => False
     end.
Proof.
  unfold get_active_set_status, is_validator_active, bind.
  destruct (get_validator_uptime secp_address network None w) as [[[u|]|e] w'];
    cbn [fst snd ret fmap option_fmap option_map]; [|auto|auto].
  destruct (is_ever_active u); cbn [negb]; [|cbn; eauto].
  destruct (is_none (round_diff u)); [cbn; eauto|].
  destruct (is_active u); cbn; auto.
Qed.

End RecordProperties.

(** ** The life of a state machine: restart, checks, alerts *)

Module LifecycleProperties.
Import Py StateMachine Main StateMachineProofs.

(** X14. Whether an alert type is let through depends on two things
    only: the type is one of the three that always alert, or the
    validator is ACTIVE. The list of ACTIVE-only types makes no
    difference to the answer. *)
Theorem should_alert_on_always_or_active (alert_type : string) (sm : ValidatorStateMachine) :
  should_alert_on alert_type sm
    = existsb (String.eqb alert_type) ALWAYS_ALERT_TYPES
      || state_eqb (current_state sm) ACTIVE.
Proof.
  unfold should_alert_on, get_alert_threshold.
  destruct (existsb _ ALWAYS_ALERT_TYPES); [reflexivity|].
  destruct (existsb _ ACTIVE_ONLY_ALERT_TYPES); [reflexivity|].
  now destruct (current_state sm).
Qed.

(** *** Restoring a machine *)

(** The name and the state [from_dict] reads from a dict. *)
Definition restored_name (items : list (string * pyval)) : string :=
  match dict_get items "validator_name" PNone with
  | PStr s => if String.eqb s "" then DEFAULT_VALIDATOR_NAME else s
  | _ => DEFAULT_VALIDATOR_NAME
  end.

Definition restored_state (items : list (string * pyval)) : ValidatorState :=
  match ValidatorState_of_value (dict_get items "current_state" PNone) with
  | Ok st => st
  | Raise _ => DEFAULT_STATE
  end.

Lemma from_dict_dict items c :
  from_dict (PDict items) c
    = (Ok {| validator_name := restored_name items;
             current_state := restored_state items;
             _state_entered_at :=
               dict_get items "state_entered_at" (PFloat (readings c (S (ticks c))));
             _transition_history := [] |},
       {| readings := readings c; ticks := S (S (ticks c)) |}).
Proof.
  unfold from_dict, restored_name, restored_state.
  destruct (dict_get items "current_state" PNone) as [| | | |s| |]; try reflexivity.
  cbn [is_none negb ValidatorState_of_value].
  repeat (destruct (String.eqb s _); try reflexivity).
Qed.

Lemma from_dict_not_dict data c :
  is_dict data = false ->
  from_dict data c = (Ok (fst (new_machine "unknown" (Some NEW) c)), snd (time_time c)).
Proof. destruct data; try discriminate; reflexivity. Qed.

Lemma restored_state_value items :
  restored_state items <> NEW ->
  ValidatorState_of_value (dict_get items "current_state" PNone) = Ok (restored_state items).
Proof.
  unfold restored_state. destruct (ValidatorState_of_value _); [reflexivity|].
  intros H. now contradiction H.
Qed.

Lemma load_state_shape file c :
  let loaded := fst (load_state file c) in
  _transition_history loaded = []
  /\ ((validator_name loaded = "unknown" /\ current_state loaded = NEW)
      \/ exists items,
           file = FileText (Some (PDict items))
           /\ validator_name loaded = restored_name items
           /\ current_state loaded = restored_state items).
Proof.
  unfold load_state. cbn [new_machine time_time].
  destruct file as [| | |[data|]]; try (cbn; now auto).
  destruct data as [| | | | | |items]; try (cbn; now auto).
  rewrite from_dict_dict. cbn. split; [reflexivity|]. right. eauto.
Qed.

(** X15. The machine a validator starts with always carries the name of
    the validator and an empty history. It is in a state other than NEW
    only when the state file holds a dict whose name, as [from_dict] reads
    it, is that of the validator, and whose [current_state] is the value
    of that state: the state of another validator, whose file name
    collides after the replacement of spaces and slashes, is not taken
    over. *)
Theorem restored_machine_is_named (name : string) (file : StateFile) (c : Clock) :
  let restored := fst (restore_state_machine name file c) in
  validator_name restored = name
  /\ _transition_history restored = []
  /\ (current_state restored <> NEW ->
      exists items,
        file = FileText (Some (PDict items))
        /\ restored_name items = name
        /\ ValidatorState_of_value (dict_get items "current_state" PNone)
           = Ok (current_state restored)).
Proof.
  destruct (load_state_shape file c) as [Hhistory Hshape].
  unfold restore_state_machine.
  destruct (load_state file c) as [loaded c1]. cbn [fst] in *.
  destruct (String.eqb_spec (validator_name loaded) name) as [Hname|_]; cbn [fst].
  - split; [exact Hname|]. split; [exact Hhistory|]. intros Hstate.
    destruct Hshape as [[_ Hnew]|(items & Hfile & Hn & Hs)]; [contradiction|].
    exists items. split; [exact Hfile|]. split; [congruence|].
    rewrite Hs in *. now apply restored_state_value.
  - unfold new_machine. cbn. repeat split. intros H. now contradiction H.
Qed.

Lemma to_dict_restored m :
  validator_name m <> "" ->
  match to_dict m with
  | PDict items =>
      restored_name items = validator_name m
      /\ restored_state items = current_state m
      /\ forall d, dict_get items "state_entered_at" d = _state_entered_at m
  | _ => False
  end.
Proof.
  intros Hname. unfold to_dict, restored_name, restored_state.
  change (dict_get _ "validator_name" PNone) with (PStr (validator_name m)).
  change (dict_get _ "current_state" PNone) with (PStr (value (current_state m))).
  rewrite ValidatorState_of_value_value.
  destruct (String.eqb_spec (validator_name m) "") as [E|_]; [contradiction|].
  repeat split.
Qed.

(** X16. Shutdown and restart: a machine with a non-empty name that
    [save_state] could write is found again by the validator of that
    name, in the saved state and with the saved entry time, the history
    being empty; a validator of another name that reads the same file
    starts in NEW. *)
Theorem restart_resumes_saved_state
    (m : ValidatorStateMachine) (name : string) (c : Clock) :
  validator_name m <> "" ->
  exists file,
    save_state m Written = (true, Some file)
    /\ let restored := fst (restore_state_machine name file c) in
       _transition_history restored = []
       /\ if String.eqb name (validator_name m)
          then restored = {| validator_name := validator_name m;
                             current_state := current_state m;
                             _state_entered_at := _state_entered_at m;
                             _transition_history := [] |}
          else restored = fst (new_machine name None (snd (load_state file c))).
Proof.
  intros Hname. eexists. split; [reflexivity|].
  pose proof (to_dict_restored m Hname) as Hdict.
  unfold restore_state_machine, load_state. cbn [new_machine time_time].
  destruct (to_dict m) as [| | | | | |items]; try contradiction.
  destruct Hdict as (Hn & Hs & He).
  rewrite from_dict_dict, Hn, Hs, He. cbn [validator_name].
  rewrite String.eqb_sym.
  destruct (String.eqb name (validator_name m)); cbn; auto.
Qed.

Lemma restart_resumes_saved_state_witness :
  exists file,
    save_state named_machine Written = (true, Some file)
    /\ fst (restore_state_machine "validator-1" file example_clock) = named_machine
    /\ current_state (fst (restore_state_machine "validator 1" file example_clock)) = NEW.
Proof.
  destruct (restart_resumes_saved_state named_machine "validator-1" example_clock)
    as (file & Hsave & _ & Hsame); [discriminate|].
  exists file. split; [exact Hsave|]. split; [exact Hsame|].
  injection Hsave as <-. reflexivity.
Defined.

(** X17. [from_dict] takes [state_entered_at] from the file as it is:
    when the value there is not a number, the machine is restored all the
    same, and [get_state_duration] on it raises [TypeError]. *)
Theorem corrupt_entry_time_breaks_duration
    (items : list (string * pyval)) (entered : pyval) (c c0 : Clock) :
  lookup_item "state_entered_at" items = Some entered ->
  as_number entered = None ->
  exists m c',
    from_dict (PDict items) c = (Ok m, c')
    /\ _state_entered_at m = entered
    /\ fst (get_state_duration m c0) = Raise TypeError.
Proof.
  intros Hitem Hnumber. rewrite from_dict_dict. eexists _, _. split; [reflexivity|].
  unfold dict_get. rewrite Hitem. cbn [_state_entered_at]. split; [reflexivity|].
  unfold get_state_duration. cbn [time_time fst _state_entered_at].
  unfold sub. cbn [as_number]. now rewrite Hnumber.
Qed.

Lemma corrupt_entry_time_breaks_duration_witness :
  exists m c',
    from_dict (PDict [("validator_name", PStr "validator-1");
                      ("current_state", PStr "active");
                      ("state_entered_at", PStr "yesterday")]) example_clock = (Ok m, c')
    /\ _state_entered_at m = PStr "yesterday"
    /\ fst (get_state_duration m example_clock) = Raise TypeError.
Proof.
  apply (corrupt_entry_time_breaks_duration
           [("validator_name", PStr "validator-1"); ("current_state", PStr "active");
            ("state_entered_at", PStr "yesterday")]
           (PStr "yesterday") example_clock example_clock); reflexivity.
Defined.

(** *** The name of the state file *)

Lemma replace_char_length old new s :
  String.length (replace_char old new s) = String.length s.
Proof. induction s as [|ch rest IH]; simpl; congruence. Qed.

Lemma replace_char_absent old new s :
  old <> new -> ~ In old (list_ascii_of_string (replace_char old new s)).
Proof.
  intros Hneq. induction s as [|ch rest IH]; simpl; [tauto|].
  intros [H|H]; [|tauto].
  destruct (Ascii.eqb_spec ch old); congruence.
Qed.

Lemma replace_char_keeps_absent old new other s :
  other <> new ->
  ~ In other (list_ascii_of_string s) ->
  ~ In other (list_ascii_of_string (replace_char old new s)).
Proof.
  intros Hneq. induction s as [|ch rest IH]; simpl; [tauto|].
  intros Hs [H|H]; [|tauto].
  destruct (Ascii.eqb ch old); [congruence|tauto].
Qed.

Lemma replace_char_id old new s :
  ~ In old (list_ascii_of_string s) -> replace_char old new s = s.
Proof.
  induction s as [|ch rest IH]; simpl; [reflexivity|].
  intros Hs. destruct (Ascii.eqb_spec ch old) as [E|_]; [tauto|].
  f_equal. tauto.
Qed.

(** X18. The sanitized name has the length of the name, holds no space,
    slash or backslash, and sanitizing it again changes nothing; two
    names that differ only in those characters and the underscore
    therefore share a state file. *)
Theorem safe_name_is_safe (name : string) :
  String.length (safe_name name) = String.length name
  /\ (forall ch, In ch (list_ascii_of_string (safe_name name)) ->
                 ch <> " "%char /\ ch <> "/"%char /\ ch <> "\"%char)
  /\ safe_name (safe_name name) = safe_name name
  /\ state_file_name (safe_name name) = state_file_name name.
Proof.
  assert (forall ch, In ch (list_ascii_of_string (safe_name name)) ->
                     ch <> " "%char /\ ch <> "/"%char /\ ch <> "\"%char) as Hsafe.
  { intros ch Hin. unfold safe_name in Hin. repeat split; intros ->; revert Hin.
    - apply replace_char_keeps_absent; [discriminate|].
      apply replace_char_keeps_absent; [discriminate|].
      apply replace_char_absent. discriminate.
    - apply replace_char_keeps_absent; [discriminate|].
      apply replace_char_absent. discriminate.
    - apply replace_char_absent. discriminate. }
  assert (safe_name (safe_name name) = safe_name name) as Hidem.
  { unfold safe_name at 1.
    rewrite (replace_char_id " " "_" (safe_name name)) by (intros H; now apply Hsafe in H).
    rewrite (replace_char_id "/" "_" (safe_name name)) by (intros H; now apply Hsafe in H).
    apply replace_char_id. intros H. now apply Hsafe in H. }
  split; [|split; [exact Hsafe|split; [exact Hidem|]]].
  - unfold safe_name. now rewrite !replace_char_length.
  - unfold state_file_name. now rewrite Hidem.
Qed.

(** *** The history under the monitoring loop *)

(** The transitions the loop announces by name. *)
Definition announced (t : StateTransition) : Prop :=
  match from_state t, to_state t with
  | NEW, ACTIVE | ACTIVE, INACTIVE | INACTIVE, ACTIVE => True
  | _, _ => False
  end.

(** The history leads from [first] to [current]: each transition starts
    where the one before it ended, is one of the announced ones and
    carries the name. *)
Fixpoint links (name : string) (first : ValidatorState) (history : list StateTransition)
    (current : ValidatorState) : Prop :=
  match history with
  | [] => first = current
  | t :: rest =>
      from_state t = first /\ announced t /\ transition_validator_name t = name
      /\ links name (to_state t) rest current
  end.

Lemma links_snoc name history : forall first current t,
  links name first history current ->
  from_state t = current -> announced t -> transition_validator_name t = name ->
  links name first (history ++ [t]) (to_state t).
Proof.
  induction history as [|t0 rest IH]; intros first current t H1 H2 H3 H4; simpl in *.
  - subst. auto.
  - destruct H1 as (A & B & C & D). repeat split; auto. eapply IH; eauto.
Qed.

Definition coherent (m : ValidatorStateMachine) : Prop :=
  (current_state m = NEW -> _transition_history m = [])
  /\ exists first, links (validator_name m) first (_transition_history m) (current_state m).

Ltac coherent_case Hnew first Hl :=
  first [ now (split; [exact Hnew|eauto])
        | now (rewrite (Hnew eq_refl); split; [discriminate|eexists; reflexivity])
        | split; [discriminate|];
          exists first; eapply links_snoc; [exact Hl|reflexivity|exact I|reflexivity] ].

Lemma check_coherent o sm c :
  coherent sm ->
  validator_name (snd (fst (check o sm c))) = validator_name sm
  /\ coherent (snd (fst (check o sm c))).
Proof.
  intros [Hnew [first Hl]]. unfold coherent.
  destruct sm as [name current entered history]. cbn [validator_name current_state
    _transition_history] in *.
  destruct o as [flag [u|]]; unfold check, update_state_machine;
    destruct current, flag as [[|]|]; try (destruct (Huginn.is_ever_active u) eqn:Eu);
    cbn; rewrite ?Eu; cbn; (split; [reflexivity|]); coherent_case Hnew first Hl.
Qed.

(** X19. Under the monitoring loop the history is a chain: starting from
    a machine with an empty history, as every machine is at start-up,
    after any sequence of checks the recorded transitions lead step by
    step to the current state, each one is NEW to ACTIVE, ACTIVE to
    INACTIVE or INACTIVE to ACTIVE, and each carries the name of the
    machine, which never changes. *)
Theorem history_is_a_chain (os : list Observation) (sm : ValidatorStateMachine) (c : Clock) :
  _transition_history sm = [] ->
  validator_name (fst (checks os sm c)) = validator_name sm
  /\ exists first,
       links (validator_name sm) first
             (_transition_history (fst (checks os sm c)))
             (current_state (fst (checks os sm c))).
Proof.
  intros Hempty.
  assert (coherent sm) as Hsm.
  { split; [intros _; exact Hempty|]. exists (current_state sm). now rewrite Hempty. }
  clear Hempty.
  assert (validator_name (fst (checks os sm c)) = validator_name sm
          /\ coherent (fst (checks os sm c))) as [Hname [_ Hchain]].
  { revert sm c Hsm. induction os as [|o rest IH]; intros sm c Hsm; cbn [checks].
    - now split.
    - destruct (check_coherent o sm c Hsm) as [Hn Hc].
      destruct (check o sm c) as [[[tr alerts] machine] c']. cbn [fst snd] in *.
      destruct (IH machine c' Hc) as [Hn' Hc']. split; [congruence|exact Hc']. }
  split; [exact Hname|]. now rewrite <- Hname.
Qed.

(** A validator seen inactive at first sight, then active, inactive and
    active again. *)
Definition seen (active ever : bool) : Observation := {|
  is_active_validator := Some active;
  huginn_uptime :=
    Some {| Huginn.validator_id := PInt 7;
            Huginn.validator_name := PNone;
            Huginn.secp_address := "0xabc";
            Huginn.is_active := active;
            Huginn.is_ever_active := ever;
            Huginn.uptime_percent := 0;
            Huginn.finalized_count := PInt 0;
            Huginn.timeout_count := PInt 0;
            Huginn.total_events := PInt 0;
            Huginn.last_round := PNone;
            Huginn.last_block_height := PNone;
            Huginn.since_utc := PNone;
            Huginn.fetched_at := 0;
            Huginn.round_diff := PNone;
            Huginn.current_network_round := None;
            Huginn.confidence := "high" |};
|}.

Lemma history_is_a_chain_witness :
  let machine :=
    fst (checks [seen false true; seen true true; seen false true; seen true true]
                (fst (new_machine "validator-1" None example_clock)) example_clock) in
  validator_name machine = "validator-1"
  /\ length (_transition_history machine) = 3%nat
  /\ exists first,
       links "validator-1" first (_transition_history machine) (current_state machine).
Proof.
  destruct (history_is_a_chain
              [seen false true; seen true true; seen false true; seen true true]
              (fst (new_machine "validator-1" None example_clock)) example_clock eq_refl)
    as [Hname Hchain].
  split; [exact Hname|]. split; [reflexivity|exact Hchain].
Defined.

(** X20. One check sends at most one state alert, and only with a
    transition: without one nothing is sent and the history is as it
    was; with one, the transition leads from the state before the check
    to the state after it, is appended to the history, and its message is
    one of "ENTERED ACTIVE SET", "LEFT ACTIVE SET" and "RE-ENTERED ACTIVE
    SET", never the generic "State changed from ... to ...". *)
Theorem check_alerts_are_named (o : Observation) (sm : ValidatorStateMachine) (c : Clock) :
  let '(transition, alerts, machine, _) := check o sm c in
  match transition with
  | None => alerts = [] /\ _transition_history machine = _transition_history sm
  | Some t =>
      alerts = [get_alert_message t]
      /\ _transition_history machine = _transition_history sm ++ [t]
      /\ from_state t = current_state sm
      /\ to_state t = current_state machine
      /\ match get_alert_message t with
         | StateChanged _ _ _ => False
         | _ => True
         end
  end.
Proof.
  destruct sm as [name current entered history].
  destruct o as [flag [u|]]; unfold check, update_state_machine;
    destruct current, flag as [[|]|]; try (destruct (Huginn.is_ever_active u) eqn:Eu);
    cbn; rewrite ?Eu; cbn; auto 6.
Qed.

End LifecycleProperties.

(** ** Warning and critical counters *)

Module CounterProperties.
Import Py Main.

(** Every count lies between the cooldown value and the threshold. *)
Definition in_range (threshold : Z) (counts : gmap string Z) : Prop :=
  map_Forall (fun _ n => -10 <= n < threshold) counts.

Lemma in_range_default threshold counts key :
  1 <= threshold -> in_range threshold counts ->
  -10 <= default 0 (counts !! key) < threshold.
Proof.
  intros Ht Hr. destruct (counts !! key) as [n|] eqn:E; cbn; [|lia].
  exact (Hr key n E).
Qed.

Lemma track_occurrences_in_range threshold messages :
  1 <= threshold ->
  forall counts, in_range threshold counts ->
    in_range threshold (snd (track_occurrences threshold messages counts))
    /\ sublist (fst (track_occurrences threshold messages counts)) messages.
Proof.
  intros Ht. induction messages as [|msg rest IH]; intros counts Hr; cbn [track_occurrences].
  - split; [exact Hr|constructor].
  - pose proof (in_range_default threshold counts (split_head msg) Ht Hr) as Hd.
    destruct (Z.eqb_spec (default 0 (counts !! split_head msg) + 1) threshold) as [E|E].
    + destruct (IH (<[split_head msg := -10]> counts)) as [H1 H2].
      { apply map_Forall_insert_2; [lia|exact Hr]. }
      destruct (track_occurrences threshold rest _) as [sent counts']. cbn [fst snd] in *.
      split; [exact H1|now constructor].
    + destruct (IH (<[split_head msg := default 0 (counts !! split_head msg) + 1]> counts))
        as [H1 H2].
      { apply map_Forall_insert_2; [lia|exact Hr]. }
      split; [exact H1|now constructor].
Qed.

Lemma reset_counts_in_range threshold counts :
  1 <= threshold -> in_range threshold counts -> in_range threshold (reset_counts counts).
Proof.
  intros Ht Hr. unfold in_range, reset_counts. apply map_Forall_fmap.
  intros key n Hn. specialize (Hr key n Hn). cbn in *.
  destruct (Z.ltb_spec n 0); lia.
Qed.

(** X21. The counts of the warnings stay between -10 and 2, and those
    of the criticals between -10 and 1, whatever the checks report: a
    count is compared with the threshold by equality, and it can never
    have passed it. What a check sends is a selection of the messages it
    was given, in their order. *)
Theorem counts_stay_in_range
    (warnings criticals : list string) (warning_counts critical_counts : gmap string Z) :
  in_range 3 warning_counts ->
  in_range 2 critical_counts ->
  in_range 3 (snd (handle_warnings warnings warning_counts))
  /\ in_range 2 (snd (handle_criticals criticals critical_counts))
  /\ sublist (fst (handle_warnings warnings warning_counts)) warnings
  /\ sublist (fst (handle_criticals criticals critical_counts)) criticals.
Proof.
  intros Hw Hc. unfold handle_warnings, handle_criticals.
  destruct (track_occurrences_in_range 3 warnings ltac:(lia) _ Hw) as [W1 W2].
  destruct (track_occurrences_in_range 2 criticals ltac:(lia) _ Hc) as [C1 C2].
  destruct warnings as [|w ws], criticals as [|k ks]; cbn [fst snd];
    (split; [|split; [|split]]);
    first [ assumption | apply reset_counts_in_range; [lia|assumption]
          | apply sublist_nil ].
Qed.

Lemma counts_stay_in_range_witness :
  in_range 3 (snd (handle_warnings ["CPU: 91%"; "Disk: 85%"] ∅))
  /\ in_range 2 (snd (handle_criticals ["CPU critical: 99%"] ∅)).
Proof.
  destruct (counts_stay_in_range ["CPU: 91%"; "Disk: 85%"] ["CPU critical: 99%"] ∅ ∅)
    as (A & B & _); [apply map_Forall_empty|apply map_Forall_empty|].
  split; [exact A|exact B].
Defined.

(** The same message reported by [n] checks in a row: what each check
    sends, and the counts at the end. *)
Fixpoint repeated (handle : list string -> gmap string Z -> list string * gmap string Z)
    (n : nat) (msg : string) (counts : gmap string Z)
    : list (list string) * gmap string Z :=
  match n with
  | O => ([], counts)
  | S n' =>
      let '(sent, counts1) := handle [msg] counts in
      let '(later, counts2) := repeated handle n' msg counts1 in
      (sent :: later, counts2)
  end.

Lemma track_one threshold msg counts :
  track_occurrences threshold [msg] counts
    = let count := default 0 (counts !! split_head msg) + 1 in
      if count =? threshold then ([msg], <[split_head msg := -10]> counts)
      else ([], <[split_head msg := count]> counts).
Proof. cbn. now destruct (_ =? _). Qed.

Lemma repeated_S handle n msg counts :
  repeated handle (S n) msg counts
    = let '(sent, counts1) := handle [msg] counts in
      let '(later, counts2) := repeated handle n msg counts1 in
      (sent :: later, counts2).
Proof. reflexivity. Qed.

Lemma repeated_alert threshold msg (n : nat) counts :
  default 0 (counts !! split_head msg) + Z.of_nat n + 1 = threshold ->
  fst (repeated (track_occurrences threshold) (S n) msg counts) = List.repeat [] n ++ [[msg]]
  /\ snd (repeated (track_occurrences threshold) (S n) msg counts) !! split_head msg
     = Some (-10).
Proof.
  revert counts. induction n as [|n IH]; intros counts Hcount.
  - cbn [repeated]. rewrite track_one. cbv zeta.
    destruct (Z.eqb_spec (default 0 (counts !! split_head msg) + 1) threshold) as [_|E];
      [|lia].
    cbn. split; [reflexivity|apply lookup_insert_eq].
  - rewrite repeated_S, track_one. cbv zeta.
    destruct (Z.eqb_spec (default 0 (counts !! split_head msg) + 1) threshold) as [E|_];
      [lia|].
    destruct (IH (<[split_head msg := default 0 (counts !! split_head msg) + 1]> counts))
      as [H1 H2].
    { rewrite lookup_insert_eq. cbn. lia. }
    destruct (repeated (track_occurrences threshold) (S n) msg _) as [later counts2].
    cbn [fst snd] in *. rewrite H1. split; [reflexivity|exact H2].
Qed.

Lemma repeated_ext handle handle' n msg : forall counts,
  (forall counts0, handle [msg] counts0 = handle' [msg] counts0) ->
  repeated handle n msg counts = repeated handle' n msg counts.
Proof.
  induction n as [|n IH]; intros counts Hext; cbn [repeated]; [reflexivity|].
  rewrite Hext. destruct (handle' [msg] counts) as [sent counts1]. now rewrite IH.
Qed.

(** X22. A warning that keeps being reported is sent when its count
    reaches 3 and a critical when it reaches 2, and the count then drops
    to -10: from a count of [v], the checks before the one numbered
    [threshold - v] send nothing and that one sends the message. From
    nothing that is the third warning and the second critical; after an
    alert it is the 13th warning and the 12th critical. *)
Theorem repeated_message_cadence (msg : string) (counts : gmap string Z) (n : nat) :
  let v := default 0 (counts !! split_head msg) in
  (v + Z.of_nat n + 1 = 3 ->
   fst (repeated handle_warnings (S n) msg counts) = List.repeat [] n ++ [[msg]]
   /\ snd (repeated handle_warnings (S n) msg counts) !! split_head msg = Some (-10))
  /\ (v + Z.of_nat n + 1 = 2 ->
      fst (repeated handle_criticals (S n) msg counts) = List.repeat [] n ++ [[msg]]
      /\ snd (repeated handle_criticals (S n) msg counts) !! split_head msg = Some (-10)).
Proof.
  intros v. subst v. split; intros Hcount.
  - rewrite (repeated_ext handle_warnings (track_occurrences 3)) by reflexivity.
    now apply repeated_alert.
  - rewrite (repeated_ext handle_criticals (track_occurrences 2)) by reflexivity.
    now apply repeated_alert.
Qed.

Lemma repeated_message_cadence_witness :
  fst (repeated handle_warnings 3 "CPU: 91%" ∅) = [[]; []; ["CPU: 91%"]]
  /\ fst (repeated handle_warnings 13 "CPU: 91%" (<["CPU" := -10]> ∅))
     = List.repeat [] 12 ++ [["CPU: 91%"]]
  /\ fst (repeated handle_criticals 2 "CPU critical: 99%" ∅) = [[]; ["CPU critical: 99%"]].
Proof.
  split; [|split].
  - apply (proj1 (repeated_message_cadence "CPU: 91%" ∅ 2)). reflexivity.
  - apply (proj1 (repeated_message_cadence "CPU: 91%" (<["CPU" := -10]> ∅) 12)). reflexivity.
  - apply (proj2 (repeated_message_cadence "CPU critical: 99%" ∅ 1)). reflexivity.
Defined.

End CounterProperties.

(** ** The summary of a cross-validation *)

Module SummaryProperties.
Import Py CrossValidation HuginnProofs.

(** The confidence is one of the three grades. *)
Definition graded (r : CrossValidationResult) : Prop :=
  confidence r = "high" \/ confidence r = "medium" \/ confidence r = "low".

Lemma validate_validator_status_graded secp network outcome w :
  graded (fst (validate_validator_status secp network outcome w)).
Proof.
  unfold validate_validator_status.
  destruct (Huginn.is_validator_active (Some secp) network w) as [[[[|]|]|e] w'];
    destruct outcome as [[[|]|]|e']; cbn; unfold graded; cbn; auto.
Qed.

Lemma validate_all_monitored_graded gmonads validators : forall results w,
  map_Forall (fun _ r => graded r) results ->
  map_Forall (fun _ r => graded r) (fst (validate_all_monitored gmonads validators results w))
  /\ (size (fst (validate_all_monitored gmonads validators results w))
      <= size results + length validators)%nat.
Proof.
  induction validators as [|[[name secp] network] rest IH]; intros results w Hg;
    cbn [validate_all_monitored length].
  - cbn [fst]. split; [exact Hg|lia].
  - destruct (String.eqb secp "").
    + destruct (IH results w Hg) as [H1 H2]. split; [exact H1|lia].
    + pose proof (validate_validator_status_graded secp network (gmonads secp network) w) as Hr.
      destruct (validate_validator_status secp network (gmonads secp network) w)
        as [result w'].
      destruct (IH (<[name := result]> results) w') as [H1 H2].
      { apply map_Forall_insert_2; [exact Hr|exact Hg]. }
      split; [exact H1|].
      rewrite map_size_insert in H2. destruct (results !! name); cbn in H2; lia.
Qed.

Lemma grades_partition (l : list CrossValidationResult) :
  Forall graded l ->
  (length (List.filter (fun r => String.eqb (confidence r) "high") l)
   + length (List.filter (fun r => String.eqb (confidence r) "medium") l)
   + length (List.filter (fun r => String.eqb (confidence r) "low") l)
   = length l)%nat.
Proof.
  induction 1 as [|r l Hr _ IH]; [reflexivity|].
  cbn [List.filter]. destruct Hr as [->|[->| ->]]; cbn; lia.
Qed.

(** X23. The summary of the results of [validate_all_monitored] adds
    up: the three confidence counts, the active and inactive counts, and
    the agreeing and disagreeing counts each sum to the total, which is at
    least 1 and at most the number of validators given. *)
Theorem summary_adds_up
    (gmonads : GmonadsAnswers) (validators : list ValidatorConfig) (w : Huginn.World)
    (s : Summary) :
  get_summary (fst (validate_all_monitored gmonads validators ∅ w)) = Some s ->
  (total s = high_confidence s + medium_confidence s + low_confidence s
   /\ total s = active s + inactive s
   /\ total s = agreeing s + disagreeing s
   /\ 1 <= total s <= length validators)%nat.
Proof.
  destruct (validate_all_monitored_graded gmonads validators ∅ w) as [Hg Hsize];
    [apply map_Forall_empty|].
  rewrite map_size_empty in Hsize.
  set (results := fst (validate_all_monitored gmonads validators ∅ w)) in *.
  unfold get_summary. destruct (Nat.eqb_spec (size results) 0) as [|Hpos]; [discriminate|].
  intros Hs. injection Hs as <-. cbn [total high_confidence medium_confidence low_confidence
    active inactive agreeing disagreeing].
  assert (forall p, (count_values p results <= size results)%nat) as Hle.
  { intros p. unfold count_values. rewrite <- length_map_to_list.
    rewrite <- (length_fmap snd (map_to_list results)). apply filter_length_le. }
  pose proof (Hle recommended_status). pose proof (Hle sources_agree).
  split; [|lia].
  unfold count_values. rewrite <- length_map_to_list.
  rewrite <- (length_fmap snd (map_to_list results)).
  symmetry. apply grades_partition.
  apply Forall_fmap. apply map_Forall_to_list in Hg.
  eapply Forall_impl; [exact Hg|]. now intros [key r].
Qed.

(** Two validators with a key, one of them unknown to Huginn, and one
    without. *)
Definition monitored : list ValidatorConfig :=
  [ ("validator-1", "0xunknownstatus", "testnet");
    ("validator-2", "", "testnet");
    ("validator-3", "0xabc", "testnet") ].

Lemma summary_adds_up_witness :
  exists s,
    get_summary (fst (validate_all_monitored (fun _ _ => Ok (Some false)) monitored ∅
                        (fresh_world answers_without_round))) = Some s
    /\ total s = 2%nat
    /\ (total s = high_confidence s + medium_confidence s + low_confidence s)%nat.
Proof.
  eassert (get_summary (fst (validate_all_monitored (fun _ _ => Ok (Some false)) monitored ∅
                               (fresh_world answers_without_round))) = Some _) as Hs
    by (vm_compute; reflexivity).
  eexists. split; [exact Hs|]. split; [reflexivity|].
  exact (proj1 (summary_adds_up _ _ _ _ Hs)).
Defined.

End SummaryProperties.

(** ** Endpoints and the status of a breaker *)

Module ClientProperties.
Import Py Huginn HuginnProofs UptimeProperties.
Local Open Scope huginn_scope.

Lemma lower_ascii_idempotent ch : lower_ascii (lower_ascii ch) = lower_ascii ch.
Proof. destruct ch as [[] [] [] [] [] [] [] []]; reflexivity. Qed.

Lemma lower_idempotent s : lower (lower s) = lower s.
Proof.
  induction s as [|ch rest IH]; [reflexivity|].
  cbn [lower]. now rewrite lower_ascii_idempotent, IH.
Qed.

(** X24. The endpoint of a network does not depend on the letter case
    of its name, so that the names which share a cache key, a round and a
    breaker also share the endpoint; no network and the empty name stand
    for "testnet", and a network without an endpoint of its own gets the
    one of "testnet". *)
Theorem get_endpoint_by_lower_name (cfg : HuginnConfig) (network : string) :
  get_endpoint cfg (Some network) = get_endpoint cfg (Some (lower network))
  /\ get_endpoint cfg None = get_endpoint cfg (Some "testnet")
  /\ get_endpoint cfg (Some "") = get_endpoint cfg (Some "testnet")
  /\ (endpoints cfg !! lower network = None ->
      get_endpoint cfg (Some network) = get_endpoint cfg (Some "testnet")).
Proof.
  unfold get_endpoint. rewrite nonempty_lower.
  split; [|split; [reflexivity|split; [reflexivity|]]].
  - destruct (nonempty network); [now rewrite lower_idempotent|reflexivity].
  - intros Hnone. destruct (nonempty network); [|reflexivity].
    rewrite Hnone. change (nonempty "testnet") with true. cbv iota.
    assert (lower "testnet" = "testnet") as -> by reflexivity.
    destruct (base_url cfg) as [url|]; [destruct (nonempty url); [reflexivity|]|];
      now destruct (endpoints cfg !! "testnet").
Qed.

(** X25. [get_circuit_breaker_status] only reads: it reports the state,
    the failure count and the open flag of the breaker of the network
    (the default breaker when there is none yet), the flag being true
    exactly for the state named "OPEN"; it reads no clock, so a breaker
    whose recovery time has passed is still reported OPEN; and afterwards
    every breaker, the caches and the environment are as before. *)
Theorem breaker_status_only_reads (network : string) (w : World) :
  let cb := breaker_at (lower network) (self w) in
  exists w',
    get_circuit_breaker_status network w
      = (Ok (state_name (state cb), failure_count cb, is_open cb), w')
    /\ env w' = env w
    /\ caches (self w') = caches (self w)
    /\ (forall key, breaker_at key (self w') = breaker_at key (self w))
    /\ (is_open cb = true <-> state_name (state cb) = "OPEN").
Proof.
  intros cb. subst cb.
  assert (forall cb, is_open cb = true <-> state_name (state cb) = "OPEN") as Hopen.
  { intros cb. unfold is_open. destruct (state cb); cbn; split; congruence. }
  unfold get_circuit_breaker_status, _get_circuit_breaker, bind, get_self, set_self, ret.
  unfold breaker_at at 1 2 3 4 5 6.
  destruct (_circuit_breakers (self w) !! lower network) as [cb|] eqn:E; cbn [fst snd self].
  - rewrite E. cbn [default from_option id]. eexists. split; [reflexivity|].
    repeat split; try apply Hopen; apply Hopen.
  - cbn [_circuit_breakers with_circuit_breakers]. rewrite lookup_insert_eq.
    cbn [default from_option id]. eexists. split; [reflexivity|].
    split; [reflexivity|]. split; [reflexivity|]. split; [|apply Hopen].
    intros key. unfold breaker_at. cbn [self _circuit_breakers with_circuit_breakers].
    rewrite lookup_insert. case_decide as Hkey; [|reflexivity].
    subst key. now rewrite E.
Qed.

End ClientProperties.
